(** * WEBRCV: offline site mirroring (webrcv.js and its earlier variants)

    A shallow embedding of the crawl-and-capture engine of [src/webrcv.js]
    and [src/download-site.js] (one machine, parametric in the two rewriting
    functions in which the files differ) and of the sniffer of the older V8
    variant, followed by the properties of the specification that were
    checked against it.

    - JavaScript strings are lists of UTF-16 code units ([N]).
    - A JavaScript [Set] iterates in insertion order and the worker pops
      [[...queued][0]]; sets are therefore duplicate-free lists kept in
      insertion order.
    - The event loop runs every task to its next [await]; one transition of
      the machine below is one such synchronous run, and whatever the browser
      or the file system answers is the label of the transition. *)

From Stdlib Require Import String Ascii.
From stdpp Require Import base numbers list.

Local Open Scope N_scope.

(** ** JavaScript strings *)

Abbreviation str := (list N).

Module JsString.

(** A string literal of the source, as code units. *)
Fixpoint js (s : string) : str :=
  match s with
  | EmptyString => []
  | String a s' => N_of_ascii a :: js s'
  end.

(** The same, for literals of the source that contain double quotes: an
    apostrophe of the Rocq literal stands for the code unit 34. *)
Fixpoint jsq (s : string) : str :=
  match s with
  | EmptyString => []
  | String a s' =>
      (if N_of_ascii a =? 39 then 34 else N_of_ascii a) :: jsq s'
  end.

(** [a === b] on strings. *)
Fixpoint str_eqb (a b : str) : bool :=
  match a, b with
  | [], [] => true
  | x :: a', y :: b' => (x =? y) && str_eqb a' b'
  | _, _ => false
  end.

(** [s.startsWith(p)]. *)
Fixpoint starts_with (p s : str) : bool :=
  match p, s with
  | [], _ => true
  | x :: p', y :: s' => (x =? y) && starts_with p' s'
  | _ :: _, [] => false
  end.

(** [s.endsWith(x)]. *)
Definition ends_with (x s : str) : bool :=
  starts_with (rev x) (rev s).

(** [s.includes(x)]. *)
Fixpoint includes (x s : str) : bool :=
  starts_with x s ||
  match s with
  | [] => false
  | _ :: s' => includes x s'
  end.

(** [s.replace(pat, rep)] with a string pattern: only the first occurrence
    is replaced.  Every replacement text in the source is free of [$], so
    the replacement is inserted as it stands. *)
Fixpoint replace_first (pat rep s : str) : str :=
  if starts_with pat s then rep ++ drop (length pat) s
  else match s with
       | [] => []
       | c :: s' => c :: replace_first pat rep s'
       end.

(** The line terminators of ECMAScript, which [.] does not match:
    LF, CR, U+2028 and U+2029. *)
Definition is_line_terminator (c : N) : bool :=
  (c =? 10) || (c =? 13) || (c =? 8232) || (c =? 8233).

Definition no_line_terminator (s : str) : bool :=
  forallb (fun c => negb (is_line_terminator c)) s.

Definition slash : N := 47.
Definition qmark : N := 63.

(** [s.replace(/\?.*$/, '')]: the match starts at the first [?] that is
    followed by no line terminator up to the end of the input, and runs to
    the end. *)
Fixpoint strip_query (s : str) : str :=
  match s with
  | [] => []
  | c :: s' =>
      if (c =? qmark) && no_line_terminator s' then []
      else c :: strip_query s'
  end.

(** [s.replace(/^\//, '')]: one separator is removed at the start. *)
Definition strip_leading_slash (s : str) : str :=
  match s with
  | c :: s' => if c =? slash then s' else s
  | [] => []
  end.

(** *** The regular expressions built from [ROOT]

    Apart from the two fixed expressions above, every expression of the
    source is a sequence of single-character items: a literal character or
    [.]; it matches at a position when each item matches the character at
    its offset. *)
Inductive pitem : Type :=
| Lit (c : N)
| Dot.

Abbreviation pattern := (list pitem).

Definition pitem_matches (i : pitem) (c : N) : bool :=
  match i with
  | Lit x => x =? c
  | Dot => negb (is_line_terminator c)
  end.

Fixpoint matches_at (p : pattern) (s : str) : bool :=
  match p, s with
  | [], _ => true
  | i :: p', c :: s' => pitem_matches i c && matches_at p' s'
  | _ :: _, [] => false
  end.

(** [s.replace(new RegExp(p, "g"), rep)]: matches are taken from left to
    right and do not overlap.  [skip] counts the characters of the current
    match that are still to be consumed.  The empty expression matches
    before every character and at the end. *)
Fixpoint replace_all_from (p : pattern) (rep : str) (skip : nat) (s : str) : str :=
  match s with
  | [] =>
      match p, skip with
      | [], O => rep
      | _, _ => []
      end
  | c :: s' =>
      match skip with
      | S k => replace_all_from p rep k s'
      | O =>
          match p with
          | [] => rep ++ c :: replace_all_from p rep O s'
          | _ :: p' =>
              if matches_at p s
              then rep ++ replace_all_from p rep (length p') s'
              else c :: replace_all_from p rep O s'
          end
      end
  end.

Definition replace_all (p : pattern) (rep s : str) : str :=
  replace_all_from p rep O s.

(** [x.replace(/[-/\\^$*+?.()|[\]{}]/g, "\\$&")] followed by [new RegExp]:
    every character of [x] is matched literally. *)
Definition escaped (x : str) : pattern := map Lit x.

(** The characters that [x.replace(/[-/\\^$*+?.()|[\]{}]/g, ...)] escapes. *)
Definition is_regex_special (c : N) : bool :=
  existsb (N.eqb c) (js "-/\^$*+?.()|[]{}").

(** [new RegExp(x)] for an [x] that is NOT escaped.  A [.] is the wildcard;
    [-] and [/] stand for themselves outside a class; any other special
    character makes [x] an expression outside this model (or a syntax
    error), for which no pattern is given. *)
Fixpoint regex_of_source (x : str) : option pattern :=
  match x with
  | [] => Some []
  | c :: x' =>
      match regex_of_source x' with
      | None => None
      | Some p =>
          if c =? 46 then Some (Dot :: p)
          else if (c =? 45) || (c =? slash) then Some (Lit c :: p)
          else if is_regex_special c then None
          else Some (Lit c :: p)
      end
  end.

(** What the regular-expression engine of the host does with a source
    that is not read here: [new RegExp(source, "g")] either throws a
    SyntaxError (no value) or gives an expression, taken as the function
    from [rep] and [s] to [s.replace(expression, rep)]. *)
Abbreviation host_regexp := (str -> option (str -> str -> str)).

End JsString.
Import JsString.

(** ** URL normaliser and reference rewriting (webrcv.js) *)

Section Normalizer.

(** [const ROOT = args[0]]. *)
Variable ROOT : str.

Definition index_html : str := js "index.html".

Definition cleanURL (url : str) : str :=
  let u := strip_query (replace_first ROOT [] url) in
  if str_eqb u [] || str_eqb u (js "/") then index_html
  else
    let u := if ends_with (js "/") u then u ++ index_html else u in
    strip_leading_slash u.

Definition rewriteHTML (html : str) : str :=
  replace_all (escaped (jsq "url('/")) (jsq "url('")
    (replace_all (escaped (jsq "src='/")) (jsq "src='")
      (replace_all (escaped (jsq "href='/")) (jsq "href='")
        (replace_all (escaped ROOT) [] html))).

(** [const re = new RegExp(lit + ROOT, "g")], for a literal head [lit]
    written [lit_source] in the source of the expression: read here when
    [ROOT] is of the class of [regex_of_source], left to the host
    otherwise. *)
Variable host : host_regexp.

Definition RegExp_g (lit lit_source : str) : option (str -> str -> str) :=
  match regex_of_source ROOT with
  | Some r => Some (replace_all (escaped lit ++ r))
  | None => host (lit_source ++ ROOT)
  end.

(** [rewriteCSS]: the first two expressions are built from [ROOT] as it
    stands (not escaped), so a [.] of the origin is a wildcard there; the
    third one is escaped.  No value when one of the first two is not an
    expression ([new RegExp] throws). *)
Definition rewriteCSS (css : str) : option str :=
  match RegExp_g (jsq "url('") (jsq "url\('") with
  | None => None
  | Some quoted =>
      match RegExp_g (js "url(") (js "url\(") with
      | None => None
      | Some bare =>
          Some (replace_all (escaped ROOT) []
                 (bare (js "url(") (quoted (jsq "url('") css)))
      end
  end.

End Normalizer.

(** ** JavaScript sets, in insertion order *)

Module JsSet.

(** [s.has(x)]. *)
Definition has (x : str) (s : list str) : bool := existsb (str_eqb x) s.

(** [s.add(x)]: a new member goes to the end. *)
Definition add (x : str) (s : list str) : list str :=
  if has x s then s else s ++ [x].

(** [s.delete(x)]. *)
Fixpoint delete (x : str) (s : list str) : list str :=
  match s with
  | [] => []
  | y :: s' => if str_eqb x y then s' else y :: delete x s'
  end.

Fixpoint occ (x : str) (s : list str) : nat :=
  match s with
  | [] => O
  | y :: s' => ((if str_eqb x y then 1 else 0) + occ x s')%nat
  end.

End JsSet.

(** ** Sitemap *)

(** [[...xml.matchAll(/<loc>(.*?)<\/loc>/g)].map((m) => m[1])].
    [lazy_until close s] is the lazy [(.*?)] followed by [close]: the
    captured text and the number of characters matched. *)
Fixpoint lazy_until (close s : str) : option (str * nat) :=
  if starts_with close s then Some ([], length close)
  else match s with
       | [] => None
       | c :: s' =>
           if is_line_terminator c then None
           else match lazy_until close s' with
                | Some (cap, n) => Some (c :: cap, S n)
                | None => None
                end
       end.

Fixpoint loc_entries_from (skip : nat) (s : str) : list str :=
  match s with
  | [] => []
  | _ :: s' =>
      match skip with
      | S k => loc_entries_from k s'
      | O =>
          if starts_with (js "<loc>") s then
            match lazy_until (js "</loc>") (drop 5 s) with
            | Some (cap, n) => cap :: loc_entries_from (4 + n) s'
            | None => loc_entries_from O s'
            end
          else loc_entries_from O s'
      end
  end.

Definition loc_entries (xml : str) : list str := loc_entries_from O xml.

(** ** The crawl machine *)

(** Where a worker is suspended. *)
Inductive wpc : Type :=
| WInit                      (* await browser.newContext() *)
| WRendering (url : str)     (* newPage, goto, fullScroll, content *)
| WExtracting (url : str)    (* await extractLinks(page) *)
| WClosing (url : str)       (* await page.close() *)
| WDone.                     (* left the loop *)

(** Lines written by [console.log].  The error object printed after
    "Error saving asset:" is not modelled; the message carries the path of
    the handler that printed it instead. *)
Inductive msg : Type :=
| Crawling (url : str)
| Retry (url : str)
| ErrorSavingAsset (path : str)
| SitemapAdded (n : nat)
| NoSitemap.

Inductive writer : Type := BySniffer | ByWorker.

(** One call of [writeFile(path.join(OUT, rel), data)] that returned. *)
Record write : Type := { w_by : writer; w_path : str; w_data : str }.

Record state : Type := {
  queued : list str;
  visited : list str;
  saving : list str;
  workers : list wpc;
  handlers : list str;   (* sniffer handlers waiting for res.body() *)
  console : list msg;    (* oldest first *)
  disk : list write      (* oldest first *)
}.

Definition set_queued (q : list str) (s : state) : state :=
  {| queued := q; visited := visited s; saving := saving s;
     workers := workers s; handlers := handlers s;
     console := console s; disk := disk s |}.

Definition set_visited (v : list str) (s : state) : state :=
  {| queued := queued s; visited := v; saving := saving s;
     workers := workers s; handlers := handlers s;
     console := console s; disk := disk s |}.

Definition set_saving (c : list str) (s : state) : state :=
  {| queued := queued s; visited := visited s; saving := c;
     workers := workers s; handlers := handlers s;
     console := console s; disk := disk s |}.

Definition set_worker (i : nat) (pc : wpc) (s : state) : state :=
  {| queued := queued s; visited := visited s; saving := saving s;
     workers := <[i := pc]> (workers s); handlers := handlers s;
     console := console s; disk := disk s |}.

Definition set_handlers (h : list str) (s : state) : state :=
  {| queued := queued s; visited := visited s; saving := saving s;
     workers := workers s; handlers := h;
     console := console s; disk := disk s |}.

Definition log (m : msg) (s : state) : state :=
  {| queued := queued s; visited := visited s; saving := saving s;
     workers := workers s; handlers := handlers s;
     console := console s ++ [m]; disk := disk s |}.

Definition writeFile (by_ : writer) (rel data : str) (s : state) : state :=
  {| queued := queued s; visited := visited s; saving := saving s;
     workers := workers s; handlers := handlers s;
     console := console s;
     disk := disk s ++ [{| w_by := by_; w_path := rel; w_data := data |}] |}.

(** What the browser and the file system answer. *)
Inductive sitemap_fetch : Type :=
| FetchThrows
| FetchResponse (ok : bool) (text : option str).

(** The resumption of a suspended task, with the answer it is resumed
    with.
    - [Start i]: the context of worker [i] is ready and the worker enters
      its loop.
    - [Rendered i html stored]: [newPage], [goto], [fullScroll] and
      [content] of worker [i] gave [html], or one of them threw ([None]);
      [stored] tells whether [writeFile] of the page returned or threw.
    - [Extracted i links]: [extractLinks] gave [links], or threw.
    - [Closed i ok]: [page.close()] returned, or threw.
    - [Response url]: a response event is delivered to the sniffer.
    - [Body k body stored]: [res.body()] of the [k]-th suspended handler
      gave [body], or threw; [stored] as above. *)
Inductive label : Type :=
| Start (i : nat)
| Rendered (i : nat) (html : option str) (stored : bool)
| Extracted (i : nat) (links : option (list str))
| Closed (i : nat) (ok : bool)
| Response (url : str)
| Body (k : nat) (body : option str) (stored : bool).

Definition THREADS : nat := 4.

Section Crawl.

Variable ROOT : str.

(** The [rewriteHTML] and the [rewriteCSS] of the file, the two functions
    in which webrcv.js and download-site.js differ: [rewriteHTML ROOT] and
    [rewriteCSS ROOT host] in webrcv.js, the functions with the hard-coded
    origin ([V8.rewriteHTML], and [V8.rewriteCSS], which never throws) in
    download-site.js.  [css_rewriter] has no value when [rewriteCSS]
    throws. *)
Variable html_rewriter : str -> str.
Variable css_rewriter : str -> option str.

Definition loadSitemap (r : sitemap_fetch) (s : state) : state :=
  match r with
  | FetchThrows => log NoSitemap s
  | FetchResponse false _ => s
  | FetchResponse true None => log NoSitemap s
  | FetchResponse true (Some xml) =>
      let urls := loc_entries xml in
      log (SitemapAdded (length urls))
        (set_queued (foldl (fun q u => JsSet.add u q) (queued s) urls) s)
  end.

(** The state in which the four workers are started. *)
Definition boot (r : sitemap_fetch) : state :=
  loadSitemap r
    {| queued := [ROOT]; visited := []; saving := [];
       workers := replicate THREADS WInit; handlers := [];
       console := []; disk := [] |}.

(** The head of the [while] loop, up to the next [await].  [[...queued][0]]
    is the oldest member, and deleting it from a duplicate-free list leaves
    the rest; members that are already visited are dropped ([continue]).
    The result is the URL to render, if any, and what is left of the
    queue. *)
Fixpoint worker_loop (q v : list str) : option str * list str :=
  match q with
  | [] => (None, [])
  | url :: q' =>
      if JsSet.has url v then worker_loop q' v else (Some url, q')
  end.

Definition enter_loop (i : nat) (s : state) : state :=
  match worker_loop (queued s) (visited s) with
  | (None, q) => set_worker i WDone (set_queued q s)
  | (Some url, q) =>
      set_worker i (WRendering url)
        (log (Crawling url)
          (set_visited (JsSet.add url (visited s)) (set_queued q s)))
  end.

(** The [catch] of the worker, and on to the head of the loop. *)
Definition retry (i : nat) (url : str) (s : state) : state :=
  enter_loop i (set_queued (JsSet.add url (queued s)) (log (Retry url) s)).

(** [for (const link of links) if (!visited.has(link)) queued.add(link)]. *)
Definition enqueue_links (v : list str) (links q : list str) : list str :=
  foldl (fun q link => if JsSet.has link v then q else JsSet.add link q) q links.

(** The part of the sniffer's handler that runs when the response event is
    delivered, up to [await res.body()]. *)
Definition sniff_response (url : str) (s : state) : state :=
  if negb (starts_with ROOT url) then s
  else
    let cleaned := cleanURL ROOT url in
    if JsSet.has cleaned (saving s) then s
    else set_handlers (handlers s ++ [cleaned])
           (set_saving (JsSet.add cleaned (saving s)) s).

(** The rest of the handler.  A body that cannot be read, a style sheet
    whose rewriting throws and a write that fails all end in the
    [catch]. *)
Definition sniff_body (cleaned : str) (body : option str) (stored : bool)
    (s : state) : state :=
  match body with
  | None => log (ErrorSavingAsset cleaned) s
  | Some b =>
      let data :=
        if ends_with (js ".css") cleaned then css_rewriter b else Some b in
      match data, stored with
      | Some d, true => writeFile BySniffer cleaned d s
      | _, _ => log (ErrorSavingAsset cleaned) s
      end
  end.

Definition step (s : state) (l : label) : option state :=
  match l with
  | Start i =>
      match workers s !! i with
      | Some WInit => Some (enter_loop i s)
      | _ => None
      end
  | Rendered i html stored =>
      match workers s !! i with
      | Some (WRendering url) =>
          match html, stored with
          | Some h, true =>
              Some (set_worker i (WExtracting url)
                     (writeFile ByWorker (cleanURL ROOT url) (html_rewriter h) s))
          | _, _ => Some (retry i url s)
          end
      | _ => None
      end
  | Extracted i links =>
      match workers s !! i with
      | Some (WExtracting url) =>
          match links with
          | Some ls =>
              Some (set_worker i (WClosing url)
                     (set_queued (enqueue_links (visited s) ls (queued s)) s))
          | None => Some (retry i url s)
          end
      | _ => None
      end
  | Closed i ok =>
      match workers s !! i with
      | Some (WClosing url) =>
          if ok then Some (enter_loop i s) else Some (retry i url s)
      | _ => None
      end
  | Response url => Some (sniff_response url s)
  | Body k body stored =>
      match handlers s !! k with
      | Some cleaned =>
          Some (sniff_body cleaned body stored
                 (set_handlers (base.delete k (handlers s)) s))
      | None => None
      end
  end.

Fixpoint run (s : state) (ls : list label) : option state :=
  match ls with
  | [] => Some s
  | l :: ls' =>
      match step s l with
      | Some s' => run s' ls'
      | None => None
      end
  end.

End Crawl.

(** What the console and the disk record. *)
Fixpoint crawl_count (u : str) (con : list msg) : nat :=
  match con with
  | [] => O
  | Crawling x :: con' => ((if str_eqb u x then 1 else 0) + crawl_count u con')%nat
  | _ :: con' => crawl_count u con'
  end.

Fixpoint retry_count (u : str) (con : list msg) : nat :=
  match con with
  | [] => O
  | Retry x :: con' => ((if str_eqb u x then 1 else 0) + retry_count u con')%nat
  | _ :: con' => retry_count u con'
  end.

Fixpoint asset_errors (p : str) (con : list msg) : nat :=
  match con with
  | [] => O
  | ErrorSavingAsset x :: con' =>
      ((if str_eqb p x then 1 else 0) + asset_errors p con')%nat
  | _ :: con' => asset_errors p con'
  end.

Definition written_by (b : writer) (p : str) (w : write) : bool :=
  match w_by w, b with
  | BySniffer, BySniffer | ByWorker, ByWorker => str_eqb p (w_path w)
  | _, _ => false
  end.

Fixpoint writes_by (b : writer) (p : str) (d : list write) : nat :=
  match d with
  | [] => O
  | w :: d' => ((if written_by b p w then 1 else 0) + writes_by b p d')%nat
  end.

(** ** The V8 variant (hard-coded origin, no claimed-paths set) *)

Module V8.

Definition ROOT : str := js "https://thegentlemensedit.com".

(** The origin as the expressions of this variant spell it, with the
    separator that follows it. *)
Definition ROOT_slash : str := ROOT ++ [slash].

Definition rewriteHTML (html : str) : str :=
  replace_all (escaped (jsq "url('/")) (jsq "url('")
    (replace_all (escaped (jsq "src='/")) (jsq "src='")
      (replace_all (escaped (jsq "href='/")) (jsq "href='")
        (replace_all (escaped ROOT_slash) [] html))).

Definition rewriteCSS (css : str) : str :=
  replace_all (escaped ROOT_slash) []
    (replace_all (escaped (js "url(" ++ ROOT_slash)) (js "url(")
      (replace_all (escaped (jsq "url('" ++ ROOT_slash)) (jsq "url('") css)).


End V8.

(** The origin used in the examples of the specification. *)
Definition site_example : str := js "https://site.example".

(** ** Invariants of the machine *)

(** The queue is a set, and ["Crawling: u"] has been printed once for every
    visited URL and never for another one. *)
Definition crawl_inv (s : state) : Prop :=
  NoDup (queued s) /\
  forall u, crawl_count u (console s)
            = if JsSet.has u (visited s) then 1%nat else 0%nat.

(** Every claimed path is in exactly one of three conditions: its handler
    still waits for the body, its artifact was written, or its handler
    failed; an unclaimed path is in none. *)
Definition sniff_inv (s : state) : Prop :=
  forall p, (writes_by BySniffer p (disk s) + asset_errors p (console s)
             + JsSet.occ p (handlers s))%nat
            = if JsSet.has p (saving s) then 1%nat else 0%nat.

(** What a step of a worker leaves alone, and what a step of the sniffer
    leaves alone. *)
Definition sniffer_untouched (s s' : state) : Prop :=
  saving s' = saving s /\ handlers s' = handlers s /\
  forall p, writes_by BySniffer p (disk s') = writes_by BySniffer p (disk s) /\
            asset_errors p (console s') = asset_errors p (console s).

Definition frontier_untouched (s s' : state) : Prop :=
  queued s' = queued s /\ visited s' = visited s /\ workers s' = workers s /\
  forall u, crawl_count u (console s') = crawl_count u (console s).

Definition is_worker_label (l : label) : bool :=
  match l with
  | Response _ | Body _ _ _ => false
  | _ => true
  end.

(** ** Runs used as examples *)

Definition sitemap_three : str :=
  js "<urlset><url><loc>https://site.example</loc></url><url><loc>https://site.example/about</loc></url><url><loc>https://site.example/blog/</loc></url></urlset>".

Definition page (rel : string) : str := site_example ++ js rel.

(** Three entries, each on one line, and the text before each. *)
Definition sitemap_items : list (str * str) :=
  [(js "<urlset><url>", page "/about");
   (js "</url><url>", page "/blog/");
   (js "</url><url>", page "/contact")].

(** Three entries, each broken over lines. *)
Definition sitemap_broken : str :=
  js "<urlset><url><loc>" ++ [10] ++ js "  https://site.example/about" ++ [10]
  ++ js "</loc></url><url><loc>" ++ [10] ++ js "  https://site.example/blog/" ++ [10]
  ++ js "</loc></url><url><loc>" ++ [10] ++ js "  https://site.example/contact" ++ [10]
  ++ js "</loc></url></urlset>".

(** The first page cannot be rendered. *)
Definition run_render_fails : list label :=
  [Start 0; Start 1; Start 2; Start 3; Rendered 0 None false].

(** A site of two pages that link to each other. *)
Definition run_two_pages : list label :=
  [Start 0; Start 1; Start 2; Start 3;
   Rendered 0 (Some (jsq "<a href='https://site.example/about'>")) true;
   Extracted 0 (Some [page "/about"]);
   Closed 0 true;
   Rendered 0 (Some (jsq "<a href='https://site.example'>")) true;
   Extracted 0 (Some [site_example]);
   Closed 0 true].

(** While the first page renders, one style sheet is requested under two
    query strings; the body of the first response cannot be read. *)
Definition run_asset_fails_first : list label :=
  [Start 0; Response (page "/a.css?v=1"); Body 0 None false].

Definition run_asset_fails : list label :=
  run_asset_fails_first ++ [Response (page "/a.css?v=2")].

(** The same two requests, the first of which is read and stored. *)
Definition run_asset_stored : list label :=
  [Start 0;
   Response (page "/a.css?v=1");
   Response (page "/a.css?v=2");
   Body 0 (Some (js "body{margin:0}")) true].


(** The [rewriteCSS] of webrcv.js for the origin of the examples.  That
    origin is read by [regex_of_source], so the engine of the host, here
    one that accepts no expression, is not consulted. *)
Definition example_css : str -> option str :=
  rewriteCSS site_example (fun _ => None).

Definition example_html : str -> str := rewriteHTML site_example.

(** download-site.js (its origin is hard-coded): one style sheet is
    requested, its body is read, and the write fails. *)
Definition v10_css : str -> option str := fun css => Some (V8.rewriteCSS css).

Definition run_v10_write_fails : list label :=
  [Start 0;
   Response (V8.ROOT ++ js "/a.css?v=1");
   Body 0 (Some (js "body{margin:0}")) false].


Definition state_render_fails : state :=
  {| queued := []; visited := [site_example]; saving := [];
     workers := [WDone; WDone; WDone; WDone]; handlers := [];
     console := [NoSitemap; Crawling site_example; Retry site_example];
     disk := [] |}.

Definition state_two_pages : state :=
  {| queued := []; visited := [site_example; page "/about"]; saving := [];
     workers := [WDone; WDone; WDone; WDone]; handlers := [];
     console := [NoSitemap; Crawling site_example; Crawling (page "/about")];
     disk := [ {| w_by := ByWorker; w_path := js "index.html";
                  w_data := jsq "<a href='about'>" |};
               {| w_by := ByWorker; w_path := js "about";
                  w_data := jsq "<a href=''>" |} ] |}.

Definition state_asset_fails : state :=
  {| queued := []; visited := [site_example]; saving := [js "a.css"];
     workers := [WRendering site_example; WInit; WInit; WInit]; handlers := [];
     console := [NoSitemap; Crawling site_example; ErrorSavingAsset (js "a.css")];
     disk := [] |}.

Definition state_v10_write_fails : state :=
  {| queued := []; visited := [V8.ROOT]; saving := [js "a.css"];
     workers := [WRendering V8.ROOT; WInit; WInit; WInit]; handlers := [];
     console := [NoSitemap; Crawling V8.ROOT; ErrorSavingAsset (js "a.css")];
     disk := [] |}.

Definition state_asset_stored : state :=
  {| queued := []; visited := [site_example]; saving := [js "a.css"];
     workers := [WRendering site_example; WInit; WInit; WInit]; handlers := [];
     console := [NoSitemap; Crawling site_example];
     disk := [ {| w_by := BySniffer; w_path := js "a.css";
                  w_data := js "body{margin:0}" |} ] |}.

(** ** Link extraction and scrolling (the code run inside the page) *)

(** The code units removed by [String.prototype.trim]: the white space and
    the line terminators of ECMAScript. *)
Definition is_js_whitespace (c : N) : bool :=
  existsb (N.eqb c) [9; 10; 11; 12; 13; 32; 160; 5760; 8232; 8233; 8239; 8287;
                     12288; 65279]
  || ((8192 <=? c) && (c <=? 8202)).

Fixpoint trim_start (s : str) : str :=
  match s with
  | [] => []
  | c :: s' => if is_js_whitespace c then trim_start s' else s
  end.

(** [s.trim()]. *)
Definition trim (s : str) : str := rev (trim_start (rev (trim_start s))).

Definition hash : N := 35.

(** [extractLinks]: [hrefs] are the [href] properties of the anchors of the
    document, in document order, and [origin] is [location.origin] (the
    hard-coded origin in the older variants). *)
Definition extractLinks (origin : str) (hrefs : list str) : list str :=
  List.filter (fun x => starts_with origin x && negb (includes [hash] x))
              (map trim hrefs).

(** [fullScroll]: every tick of the interval reads [scrollHeight] and
    [innerHeight], scrolls by 600 and adds 600 to [total]; the promise is
    resolved at the first tick at which [total >= h - innerHeight].
    [readings] are the pairs read at the successive ticks; the result is
    the number of ticks after which the promise is resolved, and [None]
    when it is not resolved within the ticks given.  (All the numbers are
    integers far below 2^53, on which the arithmetic of JavaScript is
    exact.) *)
Fixpoint fullScroll_from (total : Z) (readings : list (Z * Z)) : option nat :=
  match readings with
  | [] => None
  | (h, innerHeight) :: rest =>
      let total := (total + 600)%Z in
      if (h - innerHeight <=? total)%Z then Some 1%nat
      else option_map S (fullScroll_from total rest)
  end.

Definition fullScroll (readings : list (Z * Z)) : option nat :=
  fullScroll_from 0%Z readings.

(** ** Notions used to state the properties *)

(** The pattern matches somewhere in the string. *)
Fixpoint occurs (p : pattern) (s : str) : bool :=
  matches_at p s ||
  match s with
  | [] => false
  | _ :: s' => occurs p s'
  end.

(** A sitemap that holds the given entries, each preceded by some text,
    and ends with [tail]. *)
Fixpoint sitemap_of (items : list (str * str)) (tail : str) : str :=
  match items with
  | [] => tail
  | (before, u) :: items' =>
      before ++ js "<loc>" ++ u ++ js "</loc>" ++ sitemap_of items' tail
  end.

Definition lt_sign : N := 60.

(** An item of such a sitemap whose entry is read back as it is: no
    [<loc>] in the text before it, and neither [<] nor a line terminator in
    the entry. *)
Definition plain_item (it : str * str) : bool :=
  negb (includes (js "<loc>") (fst it))
  && negb (includes [lt_sign] (snd it))
  && no_line_terminator (snd it).

(** The URL a suspended worker is working on. *)
Definition pc_url (pc : wpc) : option str :=
  match pc with
  | WRendering u | WExtracting u | WClosing u => Some u
  | WInit | WDone => None
  end.

(** Every worker has left its loop. *)
Definition is_done (pc : wpc) : bool :=
  match pc with
  | WDone => true
  | _ => false
  end.

Definition all_done (s : state) : bool := forallb is_done (workers s).

(** Where what is on the disk and what is in flight comes from. *)
Definition pcs_visited (s : state) : Prop :=
  forall i pc u, workers s !! i = Some pc -> pc_url pc = Some u -> u ∈ visited s.

Definition worker_writes_inv (ROOT : str) (html_rewriter : str -> str)
    (s : state) : Prop :=
  forall w, w ∈ disk s -> w_by w = ByWorker ->
            exists u html, u ∈ visited s /\ w_path w = cleanURL ROOT u /\
                           w_data w = html_rewriter html.

Definition in_scope_path (ROOT p : str) : Prop :=
  exists url, starts_with ROOT url = true /\ p = cleanURL ROOT url.

Definition sniffer_writes_inv (ROOT : str) (s : state) : Prop :=
  (forall p, p ∈ handlers s -> in_scope_path ROOT p) /\
  (forall w, w ∈ disk s -> w_by w = BySniffer -> in_scope_path ROOT (w_path w)).

(** No two workers are working on the same URL. *)
Definition distinct_urls (s : state) : Prop :=
  forall i j pc pc' u,
    workers s !! i = Some pc -> workers s !! j = Some pc' ->
    pc_url pc = Some u -> pc_url pc' = Some u -> i = j.

Definition provenance_inv (ROOT : str) (html_rewriter : str -> str)
    (s : state) : Prop :=
  pcs_visited s /\ worker_writes_inv ROOT html_rewriter s /\
  sniffer_writes_inv ROOT s.

(** One worker is left, closing the first page, while its link is
    pending; and the state after the page is closed. *)
Definition state_one_worker_left : state :=
  {| queued := [page "/about"]; visited := [site_example]; saving := [];
     workers := [WClosing site_example; WDone; WDone; WDone]; handlers := [];
     console := [NoSitemap; Crawling site_example];
     disk := [ {| w_by := ByWorker; w_path := js "index.html";
                  w_data := jsq "<a href='about'>" |} ] |}.

Definition state_one_worker_goes_on : state :=
  {| queued := []; visited := [site_example; page "/about"]; saving := [];
     workers := [WRendering (page "/about"); WDone; WDone; WDone]; handlers := [];
     console := [NoSitemap; Crawling site_example; Crawling (page "/about")];
     disk := [ {| w_by := ByWorker; w_path := js "index.html";
                  w_data := jsq "<a href='about'>" |} ] |}.

(** * Properties *)

(** ** Strings and sets *)

#[local] Arguments N.eqb : simpl never.

Lemma str_eqb_eq (a b : str) : str_eqb a b = true <-> a = b.
Proof.
  revert b; induction a as [|x a IH]; intros [|y b]; simpl; try (split; congruence).
  rewrite andb_true_iff, N.eqb_eq, IH. split.
  - intros [-> ->]; reflexivity.
  - intros [= -> ->]; split; reflexivity.
Qed.

Lemma str_eqb_refl (a : str) : str_eqb a a = true.
Proof. apply str_eqb_eq; reflexivity. Qed.

Lemma str_eqb_neq (a b : str) : str_eqb a b = false <-> a <> b.
Proof.
  rewrite <- str_eqb_eq. destruct (str_eqb a b); split; congruence.
Qed.

Lemma has_elem_of (x : str) (s : list str) : JsSet.has x s = true <-> x ∈ s.
Proof.
  unfold JsSet.has. induction s as [|y s IH]; simpl.
  - split; [congruence | intros H; inversion H].
  - rewrite orb_true_iff, IH, str_eqb_eq, elem_of_cons. tauto.
Qed.

Lemma has_false (x : str) (s : list str) : JsSet.has x s = false <-> x ∉ s.
Proof.
  rewrite <- has_elem_of. destruct (JsSet.has x s); split; congruence.
Qed.

Lemma has_app (x : str) (s t : list str) :
  JsSet.has x (s ++ t) = JsSet.has x s || JsSet.has x t.
Proof. unfold JsSet.has. apply existsb_app. Qed.

Lemma delete_head (u : str) (q : list str) : JsSet.delete u (u :: q) = q.
Proof. simpl. rewrite str_eqb_refl. reflexivity. Qed.

Lemma add_elem_of (x y : str) (s : list str) :
  y ∈ JsSet.add x s <-> y = x \/ y ∈ s.
Proof.
  unfold JsSet.add. destruct (JsSet.has x s) eqn:E.
  - apply has_elem_of in E. split; [tauto | intros [-> | ?]; assumption].
  - rewrite elem_of_app, list_elem_of_singleton. tauto.
Qed.

Lemma add_NoDup (x : str) (s : list str) : NoDup s -> NoDup (JsSet.add x s).
Proof.
  intros H. unfold JsSet.add. destruct (JsSet.has x s) eqn:E; [assumption|].
  apply has_false in E. apply NoDup_app. repeat split; try assumption.
  - intros y Hy Hy'. apply list_elem_of_singleton in Hy'. congruence.
  - apply NoDup_singleton.
Qed.

Lemma occ_app (x : str) (s t : list str) :
  JsSet.occ x (s ++ t) = (JsSet.occ x s + JsSet.occ x t)%nat.
Proof. induction s as [|y s IH]; simpl; [reflexivity | rewrite IH; lia]. Qed.

Lemma occ_delete (x y : str) (k : nat) (l : list str) :
  l !! k = Some y ->
  (JsSet.occ x (base.delete k l) + (if str_eqb x y then 1 else 0))%nat
  = JsSet.occ x l.
Proof.
  revert k; induction l as [|z l IH]; intros [|k] H; simpl in *; try discriminate.
  - injection H as ->. lia.
  - specialize (IH k H). lia.
Qed.

Lemma starts_with_app (p s : str) : starts_with p (p ++ s) = true.
Proof. induction p as [|x p IH]; simpl; [reflexivity|]. rewrite N.eqb_refl; exact IH. Qed.


Lemma replace_first_prefix (p rep s : str) :
  replace_first p rep (p ++ s) = rep ++ s.
Proof.
  destruct p as [|x p]; simpl.
  - destruct s; reflexivity.
  - rewrite N.eqb_refl, starts_with_app. simpl.
    rewrite drop_app_length. reflexivity.
Qed.

Lemma replace_first_absent (p rep s : str) :
  includes p s = false -> replace_first p rep s = s.
Proof.
  induction s as [|c s IH]; simpl; intros H.
  - apply orb_false_iff in H as [-> _]. reflexivity.
  - apply orb_false_iff in H as [-> H]. rewrite (IH H). reflexivity.
Qed.

Lemma includes_tail (p : str) (c : N) (s : str) :
  includes p (c :: s) = false -> includes p s = false.
Proof. simpl. intros H. apply orb_false_iff in H as [_ H]. exact H. Qed.

Lemma includes_single (c : N) (s : str) :
  includes [c] s = existsb (N.eqb c) s.
Proof.
  induction s as [|d s IH]; [reflexivity|].
  cbn [includes starts_with existsb]. rewrite andb_true_r, IH. reflexivity.
Qed.

Lemma includes_single_app (c : N) (s t : str) :
  includes [c] (s ++ t) = includes [c] s || includes [c] t.
Proof. rewrite !includes_single. apply existsb_app. Qed.

Lemma strip_query_absent (s : str) :
  includes [qmark] s = false -> strip_query s = s.
Proof.
  induction s as [|c s IH]; simpl; intros H; [reflexivity|].
  apply orb_false_iff in H as [Hc H].
  rewrite andb_true_r in Hc. rewrite N.eqb_sym in Hc. rewrite Hc. simpl.
  rewrite (IH H). reflexivity.
Qed.

Lemma strip_query_path (p q' : str) :
  includes [qmark] p = false -> no_line_terminator q' = true ->
  strip_query (p ++ qmark :: q') = p.
Proof.
  intros Hp Hq. induction p as [|c p IH]; simpl.
  - rewrite Hq. reflexivity.
  - simpl in Hp. apply orb_false_iff in Hp as [Hc Hp].
    rewrite andb_true_r in Hc. rewrite N.eqb_sym in Hc. rewrite Hc. simpl.
    rewrite (IH Hp). reflexivity.
Qed.

Lemma strip_query_two_slashes (s : str) :
  starts_with [slash; slash] (strip_query s) = starts_with [slash; slash] s.
Proof.
  destruct s as [|c s]; [reflexivity|]. cbn [strip_query].
  destruct ((c =? qmark) && no_line_terminator s) eqn:E.
  - apply andb_true_iff in E as [Ec _]. apply N.eqb_eq in Ec as ->. reflexivity.
  - destruct s as [|d s]; [reflexivity|]. cbn [strip_query starts_with].
    destruct ((d =? qmark) && no_line_terminator s) eqn:E2; [|reflexivity].
    apply andb_true_iff in E2 as [Ed _]. apply N.eqb_eq in Ed as ->.
    destruct (slash =? c); reflexivity.
Qed.


Lemma ends_with_cons (c d : N) (s : str) :
  s <> [] -> ends_with [c] (d :: s) = ends_with [c] s.
Proof.
  intros Hs. unfold ends_with. simpl.
  destruct (rev s) as [|y t] eqn:E.
  - exfalso. apply Hs. rewrite <- (rev_involutive s), E. reflexivity.
  - reflexivity.
Qed.

(** ** cleanURL *)

Lemma slash_eqb_sym (c : N) : (slash =? c) = (c =? slash).
Proof. apply N.eqb_sym. Qed.

Lemma cleanURL_in_scope (ROOT rest : str) :
  cleanURL ROOT (ROOT ++ rest) =
  let u := strip_query rest in
  if str_eqb u [] || str_eqb u [slash] then index_html
  else strip_leading_slash (if ends_with [slash] u then u ++ index_html else u).
Proof. unfold cleanURL. rewrite replace_first_prefix. reflexivity. Qed.

(** C4, counterexample: [https://site.example//a] starts with the origin
    and is mapped to [/a], which has a leading separator. *)
Lemma C4_counterexample :
  let u := js "https://site.example//a" in
  starts_with site_example u = true /\
  cleanURL site_example u = js "/a" /\
  starts_with [slash] (cleanURL site_example u) = true.
Proof. vm_compute. repeat split; reflexivity. Qed.

(** C4, amended: for a URL that starts with the origin, the output of
    [cleanURL] has a leading separator exactly when what follows the origin
    starts with two separators; one separator, and no more, is removed.
    ([cleanURL] is a function of the origin and the URL alone: it takes
    nothing else and touches no state.) *)
Theorem C4_cleanURL_leading_separator (ROOT rest : str) :
  starts_with [slash] (cleanURL ROOT (ROOT ++ rest))
  = starts_with [slash; slash] rest.
Proof.
  rewrite cleanURL_in_scope. rewrite <- strip_query_two_slashes.
  cbv zeta. generalize (strip_query rest). intros [|c [|d t]].
  - reflexivity.
  - cbn [str_eqb orb starts_with]. rewrite slash_eqb_sym.
    destruct (N.eqb_spec c slash) as [->|Hc]; [reflexivity|].
    unfold ends_with. cbn [rev app starts_with andb strip_leading_slash].
    rewrite slash_eqb_sym. apply N.eqb_neq in Hc. rewrite Hc.
    cbn [andb strip_leading_slash]. rewrite Hc. cbn [starts_with].
    rewrite slash_eqb_sym, Hc. reflexivity.
  - cbn [str_eqb orb]. rewrite andb_false_r.
    destruct (ends_with [slash] (c :: d :: t));
      cbn [app strip_leading_slash];
      (destruct (N.eqb_spec c slash) as [->|Hc]; [reflexivity|]);
      cbn [starts_with]; rewrite (slash_eqb_sym c);
      apply N.eqb_neq in Hc; rewrite Hc; reflexivity.
Qed.

(** C5, counterexample: three URLs that start with the origin, have no
    query and do not end in [/].  The origin itself is mapped to the index
    document and not to the empty rest that stripping would leave;
    [cleanURL] is not idempotent on the image of a path that starts with
    two separators, nor on the image of a path that contains the origin. *)
Lemma C5_counterexample :
  (let u := site_example ++ [] in
   includes [qmark] u = false /\ ends_with [slash] u = false /\
   cleanURL site_example u = js "index.html" /\
   cleanURL site_example u <> strip_leading_slash []) /\
  (let u := site_example ++ js "//a" in
   includes [qmark] u = false /\ ends_with [slash] u = false /\
   cleanURL site_example u = js "/a" /\
   cleanURL site_example (cleanURL site_example u) = js "a" /\
   cleanURL site_example (cleanURL site_example u) <> cleanURL site_example u) /\
  (let u := site_example ++ js "/go/https://site.example/x" in
   includes [qmark] u = false /\ ends_with [slash] u = false /\
   cleanURL site_example u = js "go/https://site.example/x" /\
   cleanURL site_example (cleanURL site_example u) = js "go//x" /\
   cleanURL site_example (cleanURL site_example u) <> cleanURL site_example u).
Proof. vm_compute. repeat split; (reflexivity || discriminate). Qed.

(** C5, amended: for a URL made of the origin and a non-empty path that
    has no [?] and does not end in [/], [cleanURL] removes the origin and
    one leading separator and nothing else; and when that path neither
    starts with two separators nor contains the origin, [cleanURL] maps
    its result to itself. *)
Theorem C5_cleanURL_plain_path (ROOT p : str) :
  p <> [] ->
  includes [qmark] p = false ->
  ends_with [slash] p = false ->
  cleanURL ROOT (ROOT ++ p) = strip_leading_slash p /\
  (starts_with [slash; slash] p = false ->
   includes ROOT p = false ->
   cleanURL ROOT (cleanURL ROOT (ROOT ++ p)) = cleanURL ROOT (ROOT ++ p)).
Proof.
  intros Hne Hq He.
  assert (Hp1 : str_eqb p [slash] = false).
  { apply str_eqb_neq. intros ->. discriminate He. }
  assert (Hfirst : cleanURL ROOT (ROOT ++ p) = strip_leading_slash p).
  { rewrite cleanURL_in_scope. cbv zeta. rewrite (strip_query_absent _ Hq).
    destruct p as [|c p]; [congruence|].
    cbn [str_eqb orb]. cbn [str_eqb] in Hp1. rewrite Hp1, He. reflexivity. }
  split; [exact Hfirst|]. intros H2 HR. rewrite Hfirst.
  set (r := strip_leading_slash p).
  assert (Hr : r <> [] /\ includes [qmark] r = false /\ includes ROOT r = false
               /\ ends_with [slash] r = false /\ starts_with [slash] r = false).
  { subst r. destruct p as [|c p]; [congruence|]. cbn [strip_leading_slash].
    destruct (N.eqb_spec c slash) as [->|Hc].
    - destruct p as [|d p]; [discriminate He|].
      repeat split.
      + discriminate.
      + exact (includes_tail _ _ _ Hq).
      + exact (includes_tail _ _ _ HR).
      + rewrite <- He. symmetry. apply ends_with_cons. discriminate.
      + cbn [starts_with] in H2 |- *. change (slash =? slash) with true in H2.
        exact H2.
    - repeat split; try assumption.
      cbn [starts_with]. rewrite slash_eqb_sym. apply N.eqb_neq in Hc.
      rewrite Hc. reflexivity. }
  destruct Hr as (Hr0 & Hrq & HrR & Hre & Hrs).
  unfold cleanURL. change (js "/") with [slash].
  rewrite (replace_first_absent _ _ _ HrR).
  rewrite (strip_query_absent _ Hrq).
  destruct r as [|c r']; [congruence|].
  assert (Hc : (c =? slash) = false).
  { cbn [starts_with] in Hrs. rewrite slash_eqb_sym, andb_true_r in Hrs. exact Hrs. }
  cbn [str_eqb orb]. rewrite Hc, Hre. cbn [andb strip_leading_slash].
  rewrite Hc. reflexivity.
Qed.

Lemma C5_cleanURL_plain_path_witness :
  cleanURL site_example (site_example ++ js "/img/a.png") = js "img/a.png" /\
  cleanURL site_example (cleanURL site_example (site_example ++ js "/img/a.png"))
  = cleanURL site_example (site_example ++ js "/img/a.png").
Proof.
  destruct (C5_cleanURL_plain_path site_example (js "/img/a.png")) as [H1 H2].
  - discriminate.
  - reflexivity.
  - reflexivity.
  - split; [exact H1 | apply H2; reflexivity].
Defined.







(** ** Rewriting of references *)

(** C7: [rewriteHTML] on the anchor of the specification, for the origin
    [https://site.example]: the result is the anchor with [href="about/"];
    the origin no longer occurs in it and the reference does not start
    with a separator. *)
Theorem C7_rewriteHTML_anchor :
  let out := rewriteHTML site_example (jsq "<a href='https://site.example/about/'>") in
  out = jsq "<a href='about/'>" /\
  includes (jsq "href='about/'") out = true /\
  includes site_example out = false /\
  includes (jsq "href='/") out = false.
Proof. vm_compute. repeat split; reflexivity. Qed.

(** C8, the code at the input of the claim (whatever the engine of the
    host, which is not consulted for this origin): [rewriteCSS] removes the
    origin and keeps the quotes, but the separator that followed the origin stays,
    so the reference is [url("/img/a.png")] and not [url("img/a.png")]. *)
Theorem C8_rewriteCSS_keeps_separator (host : host_regexp) :
  rewriteCSS site_example host
    (jsq "background:url('https://site.example/img/a.png')")
  = Some (jsq "background:url('/img/a.png')") /\
  rewriteCSS site_example host
    (jsq "background:url('https://site.example/img/a.png')")
  <> Some (jsq "background:url('img/a.png')").
Proof. vm_compute. split; [reflexivity | discriminate]. Qed.

(** The sibling [rewriteCSS] of the variants with a hard-coded origin
    consumes the separator together with the origin. *)
Lemma V8_rewriteCSS_drops_separator :
  V8.rewriteCSS (jsq "background:url('https://thegentlemensedit.com/img/a.png')")
  = jsq "background:url('img/a.png')".
Proof. vm_compute. reflexivity. Qed.

(** ** Sitemap seeding *)

Lemma foldl_add_NoDup (urls q : list str) :
  NoDup q -> NoDup (foldl (fun q u => JsSet.add u q) q urls).
Proof.
  revert q; induction urls as [|u urls IH]; intros q H; simpl; [assumption|].
  apply IH, add_NoDup, H.
Qed.

Lemma foldl_add_elem_of (urls q : list str) (x : str) :
  x ∈ foldl (fun q u => JsSet.add u q) q urls <-> x ∈ q \/ x ∈ urls.
Proof.
  revert q; induction urls as [|u urls IH]; intros q; simpl.
  - rewrite elem_of_nil. tauto.
  - rewrite IH, add_elem_of, elem_of_cons. tauto.
Qed.

Lemma add_fresh (x : str) (s : list str) : x ∉ s -> JsSet.add x s = s ++ [x].
Proof. intros H. apply has_false in H. unfold JsSet.add. rewrite H. reflexivity. Qed.

Lemma loc_entries_from_skip (k : nat) (s : str) :
  loc_entries_from k s = loc_entries_from 0 (drop k s).
Proof.
  revert k; induction s as [|c s IH]; intros [|k]; try reflexivity.
  cbn [loc_entries_from drop]. apply IH.
Qed.

Lemma loc_entries_skip_char (c : N) (s : str) :
  starts_with (js "<loc>") (c :: s) = false ->
  loc_entries_from 0 (c :: s) = loc_entries_from 0 s.
Proof. intros H. cbn [loc_entries_from]. rewrite H. reflexivity. Qed.

Lemma loc_entries_absent (s : str) :
  includes (js "<loc>") s = false -> loc_entries_from 0 s = [].
Proof.
  induction s as [|c s IH]; [reflexivity|]. cbn [includes]. intros H.
  apply orb_false_iff in H as [H1 H2].
  rewrite (loc_entries_skip_char _ _ H1). apply IH, H2.
Qed.

(** An occurrence of [<loc>] cannot begin in [b] and end in a text that
    starts with [<]. *)
Lemma loc_no_straddle (b r : str) :
  b <> [] ->
  starts_with (js "<loc>") (b ++ lt_sign :: r) = starts_with (js "<loc>") b.
Proof.
  intros Hb. change (js "<loc>") with [60; 108; 111; 99; 62].
  destruct b as [|c1 [|c2 [|c3 [|c4 [|c5 b]]]]]; [congruence| | | | |];
    cbn [app starts_with];
    repeat match goal with
           | |- context [?k =? ?c] =>
               is_var c; destruct (N.eqb_spec k c); [subst c|]
           end;
    reflexivity.
Qed.

Lemma loc_entries_skip_before (b r : str) :
  includes (js "<loc>") b = false ->
  loc_entries_from 0 (b ++ lt_sign :: r) = loc_entries_from 0 (lt_sign :: r).
Proof.
  induction b as [|c b IH]; [reflexivity|]. cbn [includes]. intros H.
  apply orb_false_iff in H as [H1 H2].
  change ((c :: b) ++ lt_sign :: r) with (c :: (b ++ lt_sign :: r)).
  rewrite loc_entries_skip_char; [apply IH, H2|].
  change (c :: b ++ lt_sign :: r) with ((c :: b) ++ lt_sign :: r).
  rewrite loc_no_straddle by discriminate. exact H1.
Qed.

Lemma loc_entries_skip_plain (a b : str) :
  includes [lt_sign] a = false ->
  loc_entries_from 0 (a ++ b) = loc_entries_from 0 b.
Proof.
  induction a as [|c a IH]; [reflexivity|]. cbn [includes starts_with]. intros H.
  apply orb_false_iff in H as [H1 H2]. rewrite andb_true_r in H1.
  change ((c :: a) ++ b) with (c :: (a ++ b)).
  rewrite loc_entries_skip_char; [apply IH, H2|].
  change (js "<loc>") with (lt_sign :: js "loc>"). cbn [starts_with].
  rewrite H1. reflexivity.
Qed.

Lemma lazy_until_entry (u rest : str) :
  includes [lt_sign] u = false ->
  no_line_terminator u = true ->
  lazy_until (js "</loc>") (u ++ js "</loc>" ++ rest)
  = Some (u, (length u + 6)%nat).
Proof.
  induction u as [|c u IH]; intros Hlt Hnl.
  - cbn [app length]. destruct rest; reflexivity.
  - cbn [includes starts_with] in Hlt. apply orb_false_iff in Hlt as [H1 H2].
    rewrite andb_true_r in H1.
    cbn [no_line_terminator forallb] in Hnl. apply andb_true_iff in Hnl as [Hc Hnl].
    apply negb_true_iff in Hc.
    cbn [app lazy_until]. change (js "</loc>") with (lt_sign :: js "/loc>") at 1.
    cbn [starts_with]. rewrite H1, Hc. cbn [andb].
    rewrite (IH H2 Hnl). reflexivity.
Qed.

Lemma lazy_until_broken (u rest : str) :
  includes [lt_sign] u = false ->
  no_line_terminator u = false ->
  lazy_until (js "</loc>") (u ++ rest) = None.
Proof.
  induction u as [|c u IH]; intros Hlt Hnl; [discriminate Hnl|].
  cbn [includes starts_with] in Hlt. apply orb_false_iff in Hlt as [H1 H2].
  rewrite andb_true_r in H1.
  cbn [app lazy_until]. change (js "</loc>") with (lt_sign :: js "/loc>") at 1.
  cbn [starts_with]. rewrite H1. cbn [andb].
  destruct (is_line_terminator c) eqn:Hc; [reflexivity|].
  cbn [no_line_terminator forallb] in Hnl. rewrite Hc in Hnl.
  rewrite (IH H2 Hnl). reflexivity.
Qed.

Lemma loc_entries_one (u rest : str) :
  includes [lt_sign] u = false ->
  no_line_terminator u = true ->
  loc_entries_from 0 (js "<loc>" ++ u ++ js "</loc>" ++ rest)
  = u :: loc_entries_from 0 rest.
Proof.
  intros Hlt Hnl. change (js "<loc>") with (lt_sign :: js "loc>").
  cbn [app loc_entries_from].
  change (starts_with (lt_sign :: js "loc>") _) with true. cbn iota.
  change (drop 5 _) with (u ++ js "</loc>" ++ rest).
  rewrite (lazy_until_entry _ _ Hlt Hnl). f_equal.
  rewrite loc_entries_from_skip.
  change (108 :: 111 :: 99 :: 62 :: u ++ js "</loc>" ++ rest)
    with (js "loc>" ++ u ++ js "</loc>" ++ rest).
  replace (js "loc>" ++ u ++ js "</loc>" ++ rest)
    with ((js "loc>" ++ u ++ js "</loc>") ++ rest)
    by (rewrite <- !app_assoc; reflexivity).
  replace (4 + (length u + 6))%nat with (length (js "loc>" ++ u ++ js "</loc>"))
    by (rewrite !length_app; cbn; lia).
  rewrite drop_app_length. reflexivity.
Qed.

Lemma loc_entries_sitemap_of (items : list (str * str)) (tail : str) :
  forallb plain_item items = true ->
  includes (js "<loc>") tail = false ->
  loc_entries (sitemap_of items tail) = map snd items.
Proof.
  intros Hitems Htail. unfold loc_entries.
  induction items as [|[b u] items IH]; cbn [sitemap_of map snd].
  - apply loc_entries_absent, Htail.
  - cbn [forallb] in Hitems. apply andb_true_iff in Hitems as [Hit Hitems].
    unfold plain_item in Hit. cbn [fst snd] in Hit.
    apply andb_true_iff in Hit as [Hit Hnl]. apply andb_true_iff in Hit as [Hb Hu].
    apply negb_true_iff in Hb. apply negb_true_iff in Hu.
    change (js "<loc>" ++ u ++ js "</loc>" ++ sitemap_of items tail)
      with (lt_sign :: js "loc>" ++ u ++ js "</loc>" ++ sitemap_of items tail).
    rewrite (loc_entries_skip_before _ _ Hb).
    change (lt_sign :: js "loc>" ++ u ++ js "</loc>" ++ sitemap_of items tail)
      with (js "<loc>" ++ u ++ js "</loc>" ++ sitemap_of items tail).
    rewrite (loc_entries_one _ _ Hu Hnl), (IH Hitems). reflexivity.
Qed.

(** C9, counterexample: a sitemap that is fetched successfully and holds
    three [<loc>] entries, each broken over lines; none of them is read and
    nothing is added to the pending set. *)
Lemma C9_counterexample :
  loc_entries sitemap_broken = [] /\
  queued (boot site_example (FetchResponse true (Some sitemap_broken)))
  = [site_example].
Proof. vm_compute. split; reflexivity. Qed.

(** C9, amended: when the sitemap is fetched successfully and holds three
    [<loc>] entries, each on one line and without [<] (and [<loc>] occurs
    nowhere else), the pending set becomes the initial URL together with
    those three, each once (an entry that is already pending adds nothing;
    three new distinct entries are appended in order); when the response is
    not successful, or the fetch or the reading of the text throws, the
    pending set is the initial URL alone.  In every case the four workers
    are created and can start. *)
Theorem C9_sitemap_seeding (ROOT : str) (r : sitemap_fetch) :
  (forall b1 a b2 b b3 c tail,
      forallb plain_item [(b1, a); (b2, b); (b3, c)] = true ->
      includes (js "<loc>") tail = false ->
      r = FetchResponse true
            (Some (sitemap_of [(b1, a); (b2, b); (b3, c)] tail)) ->
      (forall u, u ∈ queued (boot ROOT r) <->
                 u = ROOT \/ u = a \/ u = b \/ u = c) /\
      NoDup (queued (boot ROOT r)) /\
      (JsSet.has a [ROOT] = false -> JsSet.has b [ROOT; a] = false ->
       JsSet.has c [ROOT; a; b] = false ->
       queued (boot ROOT r) = [ROOT; a; b; c])) /\
  (r = FetchThrows \/ (exists t, r = FetchResponse false t) \/
   r = FetchResponse true None -> queued (boot ROOT r) = [ROOT]) /\
  workers (boot ROOT r) = replicate THREADS WInit /\
  (forall html_rewriter css_rewriter,
      is_Some (step ROOT html_rewriter css_rewriter (boot ROOT r) (Start 0))).
Proof.
  split; [|split; [|split]].
  - intros b1 a b2 b b3 c tail Hitems Htail ->. unfold boot, loadSitemap.
    rewrite (loc_entries_sitemap_of _ _ Hitems Htail).
    cbn [queued log set_queued map snd]. split; [|split].
    + intros u. rewrite foldl_add_elem_of, list_elem_of_singleton.
      rewrite !elem_of_cons, elem_of_nil. tauto.
    + apply foldl_add_NoDup, NoDup_singleton.
    + intros Ha Hb Hc. cbn [foldl]. unfold JsSet.add at 3. rewrite Ha.
      cbn [app]. unfold JsSet.add at 2. rewrite Hb. cbn [app].
      unfold JsSet.add. rewrite Hc. reflexivity.
  - intros [-> | [[t ->] | ->]]; reflexivity.
  - destruct r as [|[] []]; reflexivity.
  - intros html_rewriter css_rewriter. destruct r as [|[] []]; eexists; reflexivity.
Qed.

Lemma C9_sitemap_seeding_witness :
  queued (boot site_example
            (FetchResponse true (Some (sitemap_of sitemap_items (js "</url></urlset>")))))
  = [site_example; page "/about"; page "/blog/"; page "/contact"] /\
  NoDup (queued (boot site_example (FetchResponse true (Some sitemap_three)))).
Proof.
  split.
  - refine (proj2 (proj2 (proj1 (C9_sitemap_seeding site_example _)
             (js "<urlset><url>") (page "/about")
             (js "</url><url>") (page "/blog/")
             (js "</url><url>") (page "/contact")
             (js "</url></urlset>") _ _ eq_refl)) _ _ _); reflexivity.
  - refine (proj1 (proj2 (proj1 (C9_sitemap_seeding site_example _)
             (js "<urlset><url>") site_example
             (js "</url><url>") (page "/about")
             (js "</url><url>") (page "/blog/")
             (js "</url></urlset>") _ _ eq_refl))); reflexivity.
Defined.

(** ** The machine: what the console and the disk count *)

Lemma crawl_count_app (u : str) (c1 c2 : list msg) :
  crawl_count u (c1 ++ c2) = (crawl_count u c1 + crawl_count u c2)%nat.
Proof.
  induction c1 as [|m c1 IH]; simpl; [reflexivity|].
  destruct m; rewrite IH; lia.
Qed.

Lemma asset_errors_app (p : str) (c1 c2 : list msg) :
  asset_errors p (c1 ++ c2) = (asset_errors p c1 + asset_errors p c2)%nat.
Proof.
  induction c1 as [|m c1 IH]; simpl; [reflexivity|].
  destruct m; rewrite IH; lia.
Qed.

Lemma writes_by_app (b : writer) (p : str) (d1 d2 : list write) :
  writes_by b p (d1 ++ d2) = (writes_by b p d1 + writes_by b p d2)%nat.
Proof. induction d1 as [|w d1 IH]; simpl; [reflexivity | rewrite IH; lia]. Qed.

Lemma worker_loop_some (q v : list str) (u : str) (q' : list str) :
  worker_loop q v = (Some u, q') ->
  JsSet.has u v = false /\ u ∈ q /\ (NoDup q -> NoDup q').
Proof.
  induction q as [|x q IH]; simpl; [discriminate|].
  destruct (JsSet.has x v) eqn:E.
  - intros H. destruct (IH H) as (H1 & H2 & H3). repeat split; [assumption | |].
    + apply elem_of_cons. right; assumption.
    + intros Hnd. apply NoDup_cons in Hnd as [_ Hnd]. auto.
  - intros [= <- <-]. repeat split; [assumption | |].
    + apply elem_of_cons. left; reflexivity.
    + intros Hnd. apply NoDup_cons in Hnd as [_ Hnd]. assumption.
Qed.

Lemma worker_loop_none (q v q' : list str) :
  worker_loop q v = (None, q') -> q' = [] /\ forall u, u ∈ q -> u ∈ v.
Proof.
  induction q as [|x q IH]; simpl.
  - intros [= <-]. split; [reflexivity|]. intros u H. inversion H.
  - destruct (JsSet.has x v) eqn:E; [|discriminate].
    intros H. destruct (IH H) as [-> Hall]. split; [reflexivity|].
    intros u Hu. apply elem_of_cons in Hu as [-> | Hu]; [|auto].
    apply has_elem_of, E.
Qed.

Lemma enqueue_links_NoDup (v links q : list str) :
  NoDup q -> NoDup (enqueue_links v links q).
Proof.
  unfold enqueue_links. revert q; induction links as [|l links IH]; intros q H; simpl.
  - assumption.
  - apply IH. destruct (JsSet.has l v); [assumption | apply add_NoDup, H].
Qed.

(** Link discovery adds no visited URL. *)
Lemma enqueue_links_visited (v links q : list str) (u : str) :
  JsSet.has u v = true ->
  JsSet.has u (enqueue_links v links q) = JsSet.has u q.
Proof.
  intros Hu. unfold enqueue_links.
  revert q; induction links as [|l links IH]; intros q; simpl; [reflexivity|].
  rewrite IH. destruct (JsSet.has l v) eqn:El; [reflexivity|].
  unfold JsSet.add. destruct (JsSet.has l q) eqn:Eq; [reflexivity|].
  rewrite has_app. simpl. rewrite orb_false_r.
  destruct (str_eqb u l) eqn:E; [|apply orb_false_r].
  apply str_eqb_eq in E as ->. congruence.
Qed.

(** ** The machine: preservation of the invariants *)

Section Preservation.

Variable ROOT : str.
Variable html_rewriter : str -> str.
Variable css_rewriter : str -> option str.

Lemma enter_loop_crawl_inv (i : nat) (s : state) :
  crawl_inv s -> crawl_inv (enter_loop i s).
Proof.
  intros [Hq Hc]. unfold enter_loop.
  destruct (worker_loop (queued s) (visited s)) as [[u|] q'] eqn:E.
  - apply worker_loop_some in E as (Hu & _ & Hnd).
    split; cbn [queued visited console set_worker log set_visited set_queued].
    + auto.
    + intros x. rewrite crawl_count_app, Hc. unfold JsSet.add. rewrite Hu.
      rewrite has_app. cbn. rewrite orb_false_r.
      destruct (str_eqb x u) eqn:Ex.
      * apply str_eqb_eq in Ex as ->. rewrite Hu. reflexivity.
      * rewrite orb_false_r. lia.
  - apply worker_loop_none in E as [-> _].
    split; cbn [queued visited console set_worker set_queued].
    + apply NoDup_nil_2.
    + exact Hc.
Qed.

Lemma retry_crawl_inv (i : nat) (url : str) (s : state) :
  crawl_inv s -> crawl_inv (retry i url s).
Proof.
  intros [Hq Hc]. unfold retry. apply enter_loop_crawl_inv.
  split; cbn [queued visited console log set_queued].
  - apply add_NoDup, Hq.
  - intros x. rewrite crawl_count_app, Hc. simpl. lia.
Qed.

Lemma enter_loop_sniffer_untouched (i : nat) (s : state) :
  sniffer_untouched s (enter_loop i s).
Proof.
  unfold enter_loop, sniffer_untouched.
  destruct (worker_loop (queued s) (visited s)) as [[u|] q'];
    cbn [saving handlers disk console set_worker log set_visited set_queued];
    repeat split; rewrite ?asset_errors_app; simpl; lia.
Qed.

Lemma retry_sniffer_untouched (i : nat) (url : str) (s : state) :
  sniffer_untouched s (retry i url s).
Proof.
  unfold retry.
  destruct (enter_loop_sniffer_untouched i
              (set_queued (JsSet.add url (queued s)) (log (Retry url) s)))
    as (H1 & H2 & H3).
  repeat split; try assumption; destruct (H3 p) as [H4 H5]; [exact H4|].
  rewrite H5. cbn [console log set_queued]. rewrite asset_errors_app. simpl. lia.
Qed.

Lemma worker_step_sniffer_untouched (s s' : state) (l : label) :
  step ROOT html_rewriter css_rewriter s l = Some s' -> is_worker_label l = true -> sniffer_untouched s s'.
Proof.
  destruct l as [i | i html stored | i links | i ok | url | k body stored];
    cbn [step is_worker_label]; try discriminate; intros H _;
    destruct (workers s !! i) as [[| u | u | u |]|]; try discriminate.
  - injection H as <-. apply enter_loop_sniffer_untouched.
  - destruct html as [h|]; [destruct stored|]; injection H as <-;
      try apply retry_sniffer_untouched.
    repeat split; cbn [disk console set_worker writeFile].
    rewrite writes_by_app. simpl. lia.
  - destruct links; injection H as <-; try apply retry_sniffer_untouched.
    repeat split.
  - destruct ok; injection H as <-;
      [apply enter_loop_sniffer_untouched | apply retry_sniffer_untouched].
Qed.

Lemma sniff_response_frontier_untouched (url : str) (s : state) :
  frontier_untouched s (sniff_response ROOT url s).
Proof.
  unfold sniff_response.
  destruct (negb (starts_with ROOT url)); [repeat split|].
  destruct (JsSet.has _ (saving s)); repeat split.
Qed.

(** The handler either writes its file or prints its error. *)
Lemma sniff_body_cases (c : str) (body : option str) (stored : bool) (s : state) :
  (exists d, sniff_body css_rewriter c body stored s = writeFile BySniffer c d s) \/
  sniff_body css_rewriter c body stored s = log (ErrorSavingAsset c) s.
Proof.
  unfold sniff_body. destruct body as [b|]; [|right; reflexivity].
  destruct (if ends_with (js ".css") c then css_rewriter b else Some b) as [d|];
    [|right; reflexivity].
  destruct stored; [left; exists d; reflexivity | right; reflexivity].
Qed.

Lemma sniff_body_frontier_untouched (c : str) (body : option str)
    (stored : bool) (s s' : state) :
  sniff_body css_rewriter c body stored s = s' -> frontier_untouched s s'.
Proof.
  intros <-. destruct (sniff_body_cases c body stored s) as [[d ->] | ->];
    repeat split.
  intros u. cbn [console log]. rewrite crawl_count_app. simpl. lia.
Qed.

Lemma sniffer_step_frontier_untouched (s s' : state) (l : label) :
  step ROOT html_rewriter css_rewriter s l = Some s' -> is_worker_label l = false -> frontier_untouched s s'.
Proof.
  destruct l as [i | i html stored | i links | i ok | url | k body stored];
    cbn [step is_worker_label]; try discriminate; intros H _.
  - injection H as <-. apply sniff_response_frontier_untouched.
  - destruct (handlers s !! k) as [c|]; [|discriminate].
    injection H as H.
    destruct (sniff_body_frontier_untouched _ _ _ _ _ H) as (Hq & Hv & Hw & Hc).
    repeat split; assumption.
Qed.

Lemma step_crawl_inv (s s' : state) (l : label) :
  crawl_inv s -> step ROOT html_rewriter css_rewriter s l = Some s' -> crawl_inv s'.
Proof.
  intros Hinv H. destruct (is_worker_label l) eqn:Ew.
  - destruct l as [i | i html stored | i links | i ok | url | k body stored];
      try discriminate; cbn [step] in H;
      destruct (workers s !! i) as [[| u | u | u |]|]; try discriminate.
    + injection H as <-. apply enter_loop_crawl_inv, Hinv.
    + destruct html as [h|]; [destruct stored|]; injection H as <-;
        try apply retry_crawl_inv, Hinv.
      exact Hinv.
    + destruct links; injection H as <-; try apply retry_crawl_inv, Hinv.
      destruct Hinv as [Hq Hc]. split; [|exact Hc].
      apply enqueue_links_NoDup, Hq.
    + destruct ok; injection H as <-;
        [apply enter_loop_crawl_inv | apply retry_crawl_inv]; exact Hinv.
  - destruct (sniffer_step_frontier_untouched _ _ _ H Ew) as (Hq & Hv & _ & Hc).
    destruct Hinv as [Hq' Hc']. split.
    + rewrite Hq. exact Hq'.
    + intros u. rewrite Hc, Hv. apply Hc'.
Qed.

Lemma step_sniff_inv (s s' : state) (l : label) :
  sniff_inv s -> step ROOT html_rewriter css_rewriter s l = Some s' -> sniff_inv s'.
Proof.
  intros Hinv H. destruct (is_worker_label l) eqn:Ew.
  - destruct (worker_step_sniffer_untouched _ _ _ H Ew) as (Hs & Hh & Hp).
    intros p. destruct (Hp p) as [Hw He]. rewrite Hw, He, Hs, Hh. apply Hinv.
  - destruct l as [i | i html stored | i links | i ok | url | k body stored];
      try discriminate; cbn [step] in H.
    + injection H as <-. unfold sniff_response.
      destruct (negb (starts_with ROOT url)); [exact Hinv|].
      destruct (JsSet.has (cleanURL ROOT url) (saving s)) eqn:Ec; [exact Hinv|].
      intros p. cbn [disk console handlers saving set_handlers set_saving].
      unfold JsSet.add. rewrite Ec, has_app, occ_app. specialize (Hinv p).
      simpl. rewrite orb_false_r.
      destruct (str_eqb p (cleanURL ROOT url)) eqn:Ep.
      * apply str_eqb_eq in Ep as ->. rewrite Ec in Hinv |- *. simpl. lia.
      * rewrite orb_false_r. lia.
    + destruct (handlers s !! k) as [c|] eqn:Ek; [|discriminate].
      assert (Hbase : forall p,
        (writes_by BySniffer p (disk s) + asset_errors p (console s)
         + (JsSet.occ p (base.delete k (handlers s))
            + (if str_eqb p c then 1 else 0)))%nat
        = if JsSet.has p (saving s) then 1%nat else 0%nat).
      { intros p. rewrite (occ_delete p c k _ Ek). apply Hinv. }
      injection H as <-.
      destruct (sniff_body_cases c body stored
                  (set_handlers (base.delete k (handlers s)) s)) as [[d ->] | ->];
        intros p; specialize (Hbase p);
        cbn [disk console handlers saving set_handlers writeFile log];
        rewrite ?writes_by_app, ?asset_errors_app;
        cbn [writes_by written_by w_by w_path asset_errors]; lia.
Qed.

Lemma boot_crawl_inv (r : sitemap_fetch) : crawl_inv (boot ROOT r).
Proof.
  split.
  - destruct r as [|[] [xml|]]; try apply NoDup_singleton.
    apply foldl_add_NoDup, NoDup_singleton.
  - intros u. destruct r as [|[] [xml|]]; reflexivity.
Qed.

Lemma boot_sniff_inv (r : sitemap_fetch) : sniff_inv (boot ROOT r).
Proof. intros p. destruct r as [|[] [xml|]]; reflexivity. Qed.

Lemma run_crawl_inv (ls : list label) (s s' : state) :
  crawl_inv s -> run ROOT html_rewriter css_rewriter s ls = Some s' -> crawl_inv s'.
Proof.
  revert s; induction ls as [|l ls IH]; intros s Hinv; simpl.
  - intros [= <-]. exact Hinv.
  - destruct (step ROOT html_rewriter css_rewriter s l) as [s1|] eqn:E; [|discriminate].
    apply IH. eapply step_crawl_inv; eassumption.
Qed.

Lemma run_sniff_inv (ls : list label) (s s' : state) :
  sniff_inv s -> run ROOT html_rewriter css_rewriter s ls = Some s' -> sniff_inv s'.
Proof.
  revert s; induction ls as [|l ls IH]; intros s Hinv; simpl.
  - intros [= <-]. exact Hinv.
  - destruct (step ROOT html_rewriter css_rewriter s l) as [s1|] eqn:E; [|discriminate].
    apply IH. eapply step_sniff_inv; eassumption.
Qed.

End Preservation.

Lemma step_errors_mono (ROOT : str) (html_rewriter : str -> str)
    (css_rewriter : str -> option str) (s s' : state) (l : label) (p : str) :
  step ROOT html_rewriter css_rewriter s l = Some s' ->
  (asset_errors p (console s) <= asset_errors p (console s'))%nat.
Proof.
  intros H. destruct (is_worker_label l) eqn:Ew.
  - destruct (worker_step_sniffer_untouched _ _ _ _ _ _ H Ew) as (_ & _ & Hp).
    destruct (Hp p) as [_ ->]. lia.
  - destruct l as [i | i html stored | i links | i ok | url | k body stored];
      try discriminate; cbn [step] in H.
    + injection H as <-. unfold sniff_response.
      destruct (negb _); [lia|]. destruct (JsSet.has _ _); simpl; lia.
    + destruct (handlers s !! k) as [c|]; [|discriminate].
      injection H as <-.
      destruct (sniff_body_cases css_rewriter c body stored
                  (set_handlers (base.delete k (handlers s)) s)) as [[d ->] | ->];
        cbn [console set_handlers writeFile log];
        rewrite ?asset_errors_app; lia.
Qed.

Lemma run_errors_mono (ROOT : str) (html_rewriter : str -> str)
    (css_rewriter : str -> option str) (ls : list label) (s s' : state) (p : str) :
  run ROOT html_rewriter css_rewriter s ls = Some s' ->
  (asset_errors p (console s) <= asset_errors p (console s'))%nat.
Proof.
  revert s; induction ls as [|l ls IH]; intros s; simpl.
  - intros [= <-]. lia.
  - destruct (step ROOT html_rewriter css_rewriter s l) as [s1|] eqn:E; [|discriminate].
    intros H. apply IH in H. apply (step_errors_mono _ _ _ _ _ _ p) in E. lia.
Qed.

(** ** The frontier *)

(** C2: in every state that the four workers and the sniffer can reach, in
    whatever order their steps are taken, ["Crawling: u"] has been printed
    at most once for every URL [u], every attempt counted (those that
    follow a failure included); it has been printed once exactly for the
    visited URLs; and the enqueueing of discovered links changes neither
    the visited set nor the membership of a visited URL in the pending
    set. *)
Theorem C2_fetch_at_most_once (ROOT : str) (html_rewriter : str -> str)
    (css_rewriter : str -> option str) (r : sitemap_fetch)
    (ls : list label) (s : state) :
  run ROOT html_rewriter css_rewriter (boot ROOT r) ls = Some s ->
  (forall u, (crawl_count u (console s) <= 1)%nat) /\
  (forall u, JsSet.has u (visited s) = true <-> crawl_count u (console s) = 1%nat) /\
  (forall i links s',
      step ROOT html_rewriter css_rewriter s (Extracted i (Some links)) = Some s' ->
      visited s' = visited s /\
      forall u, JsSet.has u (visited s) = true ->
                JsSet.has u (queued s') = JsSet.has u (queued s)).
Proof.
  intros Hrun.
  destruct (run_crawl_inv ROOT html_rewriter css_rewriter ls _ _ (boot_crawl_inv ROOT r) Hrun) as [_ Hc].
  split; [|split].
  - intros u. rewrite Hc. destruct (JsSet.has u (visited s)); lia.
  - intros u. rewrite Hc. destruct (JsSet.has u (visited s)); split; congruence.
  - intros i links s' H. cbn [step] in H.
    destruct (workers s !! i) as [[| u | u | u |]|]; try discriminate.
    injection H as <-. split; [reflexivity|].
    intros x Hx. cbn [queued set_worker set_queued].
    apply enqueue_links_visited, Hx.
Qed.

Lemma C2_fetch_at_most_once_witness :
  crawl_count site_example (console state_two_pages) = 1%nat /\
  crawl_count (page "/about") (console state_two_pages) = 1%nat.
Proof.
  assert (Hrun : run site_example example_html example_css (boot site_example FetchThrows)
                   run_two_pages
                 = Some state_two_pages) by (vm_compute; reflexivity).
  destruct (C2_fetch_at_most_once _ _ _ _ _ _ Hrun) as (_ & H & _).
  split; apply H; reflexivity.
Defined.

(** C1, the code on a render failure: the only page fails to render, the
    worker prints ["Retry:"] and puts the URL back into the pending set,
    and at the head of the loop it takes the URL out again and drops it,
    because the URL is in the visited set.  The run ends with the page
    attempted once, nothing stored, and every worker out of its loop. *)
Theorem C1_failed_url_is_dropped (html_rewriter : str -> str)
    (css_rewriter : str -> option str) :
  run site_example html_rewriter css_rewriter (boot site_example FetchThrows) run_render_fails
  = Some state_render_fails /\
  crawl_count site_example (console state_render_fails) = 1%nat /\
  retry_count site_example (console state_render_fails) = 1%nat.
Proof. vm_compute. repeat split. Qed.

(** ** The sniffer *)




(** C10: for [setupSniffer] with the style-sheet rewriter of the file
    whatever it is (webrcv.js for every origin and engine of the host, and
    download-site.js), in every reachable state: (1) a response in scope
    whose path is unclaimed claims the path and suspends its handler, and
    writes nothing; (2) every suspended handler can be resumed, the
    claimed-paths set is then as it was, and when the body cannot be read,
    the rewriting of the style sheet throws or the write fails, the disk is
    as it was and the error is printed; (3) once an error was printed for a
    path, the path is claimed and the sniffer has written nothing at it, in
    this state and in every state that the run reaches later. *)
Theorem C10_claim_survives_failure (ROOT : str)
    (html_rewriter : str -> str)
    (css_rewriter : str -> option str) (r : sitemap_fetch)
    (ls : list label) (s : state) :
  run ROOT html_rewriter css_rewriter (boot ROOT r) ls = Some s ->
  (forall url,
      starts_with ROOT url = true ->
      JsSet.has (cleanURL ROOT url) (saving s) = false ->
      exists s', step ROOT html_rewriter css_rewriter s (Response url) = Some s' /\
                 JsSet.has (cleanURL ROOT url) (saving s') = true /\
                 handlers s' = handlers s ++ [cleanURL ROOT url] /\
                 disk s' = disk s) /\
  (forall k c body stored,
      handlers s !! k = Some c ->
      exists s', step ROOT html_rewriter css_rewriter s (Body k body stored) = Some s' /\
                 saving s' = saving s /\
                 (body = None \/ stored = false \/
                  (exists b, body = Some b /\ ends_with (js ".css") c = true /\
                             css_rewriter b = None) ->
                  disk s' = disk s /\
                  asset_errors c (console s') = S (asset_errors c (console s)))) /\
  (forall p ls' s',
      (1 <= asset_errors p (console s))%nat ->
      run ROOT html_rewriter css_rewriter s ls' = Some s' ->
      JsSet.has p (saving s') = true /\
      writes_by BySniffer p (disk s') = 0%nat).
Proof.
  intros Hrun.
  pose proof (run_sniff_inv ROOT html_rewriter css_rewriter ls _ _ (boot_sniff_inv ROOT r) Hrun)
    as Hinv.
  repeat apply conj.
  - intros url Hscope Hc. eexists. cbn [step]. unfold sniff_response.
    rewrite Hscope, Hc. cbn [negb]. split; [reflexivity|].
    cbn [saving handlers disk set_handlers set_saving].
    unfold JsSet.add. rewrite Hc, has_app. cbn [JsSet.has existsb].
    rewrite str_eqb_refl, orb_true_r. repeat split.
  - intros k c body stored Hk. eexists. cbn [step]. rewrite Hk.
    split; [reflexivity|]. split.
    + destruct (sniff_body_cases css_rewriter c body stored
                  (set_handlers (base.delete k (handlers s)) s)) as [[d ->] | ->];
        reflexivity.
    + intros Hfail.
      assert (E : sniff_body css_rewriter c body stored
                    (set_handlers (base.delete k (handlers s)) s)
                  = log (ErrorSavingAsset c)
                      (set_handlers (base.delete k (handlers s)) s)).
      { unfold sniff_body.
        destruct Hfail as [-> | [-> | (b & -> & Hcss & Hthrow)]].
        - reflexivity.
        - destruct body as [b|]; [|reflexivity].
          destruct (if ends_with (js ".css") c then css_rewriter b else Some b);
            reflexivity.
        - rewrite Hcss, Hthrow. reflexivity. }
      rewrite E. cbn [disk console set_handlers log].
      rewrite asset_errors_app. cbn [asset_errors]. rewrite str_eqb_refl.
      split; [reflexivity | lia].
  - intros p ls' s' He Hrun'.
    pose proof (run_sniff_inv ROOT html_rewriter css_rewriter ls' _ _ Hinv Hrun' p) as Hinv'.
    pose proof (run_errors_mono ROOT html_rewriter css_rewriter ls' _ _ p Hrun') as Hmono.
    destruct (JsSet.has p (saving s')); split; try reflexivity; lia.
Qed.

Lemma C10_claim_survives_failure_witness :
  (JsSet.has (js "a.css") (saving state_asset_fails) = true /\
   writes_by BySniffer (js "a.css") (disk state_asset_fails) = 0%nat) /\
  (JsSet.has (js "a.css") (saving state_v10_write_fails) = true /\
   writes_by BySniffer (js "a.css") (disk state_v10_write_fails) = 0%nat).
Proof.
  split.
  - assert (Hrun : run site_example example_html example_css
                     (boot site_example FetchThrows) run_asset_fails_first
                   = Some state_asset_fails)
      by (vm_compute; reflexivity).
    destruct (C10_claim_survives_failure _ _ _ _ _ _ Hrun) as (_ & _ & H).
    apply (H (js "a.css") [Response (page "/a.css?v=2")]).
    + vm_compute. lia.
    + vm_compute. reflexivity.
  - assert (Hrun : run V8.ROOT V8.rewriteHTML v10_css
                     (boot V8.ROOT FetchThrows) run_v10_write_fails
                   = Some state_v10_write_fails)
      by (vm_compute; reflexivity).
    destruct (C10_claim_survives_failure _ _ _ _ _ _ Hrun) as (_ & _ & H).
    apply (H (js "a.css") [Response (V8.ROOT ++ js "/a.css?v=2")]).
    + vm_compute. lia.
    + vm_compute. reflexivity.
Defined.

(** The two behaviours of the handler for an origin that [regex_of_source]
    does not read.  Under an engine for which the expression built from
    [https://site.example/(a] is a syntax error, the rewriting of a style
    sheet throws and the handler ends in its [catch]; under an engine that
    accepts the expression built from [http://[::1]:8080] (here one whose
    expression matches nowhere), the style sheet is written. *)
Lemma sniffer_with_unread_origin :
  (let R := js "https://site.example/(a" in
   run R (rewriteHTML R) (rewriteCSS R (fun _ => None)) (boot R FetchThrows)
     [Start 0; Response (R ++ js "/a.css"); Body 0 (Some (js "a{}")) true]
   = Some {| queued := []; visited := [R]; saving := [js "a.css"];
             workers := [WRendering R; WInit; WInit; WInit]; handlers := [];
             console := [NoSitemap; Crawling R; ErrorSavingAsset (js "a.css")];
             disk := [] |}) /\
  (let R := js "http://[::1]:8080" in
   run R (rewriteHTML R) (rewriteCSS R (fun _ => Some (fun _ s => s)))
     (boot R FetchThrows)
     [Start 0; Response (R ++ js "/a.css");
      Body 0 (Some (js "a{background:url(http://[::1]:8080/a.png)}")) true]
   = Some {| queued := []; visited := [R]; saving := [js "a.css"];
             workers := [WRendering R; WInit; WInit; WInit]; handlers := [];
             console := [NoSitemap; Crawling R];
             disk := [ {| w_by := BySniffer; w_path := js "a.css";
                          w_data := js "a{background:url(/a.png)}" |} ] |}).
Proof. vm_compute. split; reflexivity. Qed.

(** * Further properties of the code *)

(** ** cleanURL on arbitrary input *)

Lemma ends_with_index_html (x : str) :
  ends_with [slash] (x ++ index_html) = false.
Proof. unfold ends_with. rewrite rev_app_distr. reflexivity. Qed.

Lemma strip_leading_slash_app (p x : str) :
  p <> [] -> strip_leading_slash (p ++ x) = strip_leading_slash p ++ x.
Proof.
  destruct p as [|c p]; [congruence|]. intros _. cbn [app strip_leading_slash].
  destruct (c =? slash); reflexivity.
Qed.

Lemma cleanURL_unfold (ROOT url : str) :
  cleanURL ROOT url =
  let u := strip_query (replace_first ROOT [] url) in
  if str_eqb u [] || str_eqb u [slash] then index_html
  else strip_leading_slash (if ends_with [slash] u then u ++ index_html else u).
Proof. reflexivity. Qed.

(** X1: whatever the URL and the origin, the string given by [cleanURL] is
    not empty and does not end in a separator.  (Nothing is said of where
    [path.join] sends it: [..] segments pass through [cleanURL].) *)
Theorem cleanURL_names_a_file (ROOT url : str) :
  cleanURL ROOT url <> [] /\ ends_with [slash] (cleanURL ROOT url) = false.
Proof.
  rewrite cleanURL_unfold. cbv zeta.
  generalize (strip_query (replace_first ROOT [] url)). intros u.
  destruct (str_eqb u [] || str_eqb u [slash]) eqn:E.
  - split; [discriminate | reflexivity].
  - apply orb_false_iff in E as [E0 E1].
    apply str_eqb_neq in E0. apply str_eqb_neq in E1.
    destruct u as [|c t]; [congruence|].
    destruct (ends_with [slash] (c :: t)) eqn:Ee.
    + rewrite strip_leading_slash_app by discriminate. split.
      * intros H. apply app_eq_nil in H as [_ H]. discriminate H.
      * apply ends_with_index_html.
    + cbn [strip_leading_slash].
      destruct (N.eqb_spec c slash) as [->|Hc].
      * destruct t as [|d t]; [congruence|]. split; [discriminate|].
        rewrite <- Ee. symmetry. apply ends_with_cons. discriminate.
      * split; [discriminate | exact Ee].
Qed.

(** X2: the query string does not take part in the path: a URL in scope
    and the same URL followed by [?] and any query on one line are mapped
    to the same path. *)
Theorem cleanURL_ignores_query (ROOT p q : str) :
  includes [qmark] p = false ->
  no_line_terminator q = true ->
  cleanURL ROOT (ROOT ++ p ++ qmark :: q) = cleanURL ROOT (ROOT ++ p).
Proof.
  intros Hp Hq. rewrite !cleanURL_in_scope.
  rewrite (strip_query_path _ _ Hp Hq), (strip_query_absent _ Hp). reflexivity.
Qed.

Lemma cleanURL_ignores_query_witness :
  cleanURL site_example (site_example ++ js "/css/site.css" ++ qmark :: js "ver=123")
  = cleanURL site_example (site_example ++ js "/css/site.css").
Proof. apply cleanURL_ignores_query; reflexivity. Defined.

Lemma strip_query_no_qmark (s : str) :
  no_line_terminator s = true -> includes [qmark] (strip_query s) = false.
Proof.
  rewrite includes_single. induction s as [|c s IH]; [reflexivity|].
  cbn [no_line_terminator forallb strip_query]. intros H.
  apply andb_true_iff in H as [_ H]. fold (no_line_terminator s) in H.
  rewrite H, andb_true_r. destruct (c =? qmark) eqn:Ec; [reflexivity|].
  cbn [existsb]. rewrite N.eqb_sym, Ec. exact (IH H).
Qed.

Lemma forallb_drop {A} (f : A -> bool) (n : nat) (l : list A) :
  forallb f l = true -> forallb f (drop n l) = true.
Proof.
  revert n; induction l as [|x l IH]; intros [|n] H; try assumption.
  cbn [forallb] in H. apply andb_true_iff in H as [_ H]. apply IH, H.
Qed.

Lemma replace_first_forallb (f : N -> bool) (pat s : str) :
  forallb f s = true -> forallb f (replace_first pat [] s) = true.
Proof.
  induction s as [|c s IH]; intros H.
  - destruct pat; reflexivity.
  - cbn [replace_first]. destruct (starts_with pat (c :: s)).
    + apply forallb_drop, H.
    + cbn [forallb] in H |- *. apply andb_true_iff in H as [Hc H].
      rewrite Hc, (IH H). reflexivity.
Qed.

(** X3: when the URL holds no line terminator (no URL given by the browser
    does), no [?] is left in the path: the query is removed whole, also
    when the URL is outside the origin. *)
Theorem cleanURL_has_no_query (ROOT url : str) :
  no_line_terminator url = true ->
  includes [qmark] (cleanURL ROOT url) = false.
Proof.
  intros H. rewrite cleanURL_unfold. cbv zeta.
  pose proof (strip_query_no_qmark _ (replace_first_forallb _ ROOT _ H)) as Hu.
  revert Hu. generalize (strip_query (replace_first ROOT [] url)). intros u Hu.
  destruct (str_eqb u [] || str_eqb u [slash]); [reflexivity|].
  assert (Hx : includes [qmark]
                 (if ends_with [slash] u then u ++ index_html else u) = false).
  { destruct (ends_with [slash] u); [|exact Hu].
    rewrite includes_single_app, Hu. reflexivity. }
  revert Hx. generalize (if ends_with [slash] u then u ++ index_html else u).
  intros [|c x] Hx; [reflexivity|]. cbn [strip_leading_slash].
  destruct (c =? slash); [|exact Hx]. exact (includes_tail _ _ _ Hx).
Qed.

Lemma cleanURL_has_no_query_witness :
  includes [qmark] (cleanURL site_example (js "https://other.example/a?b=1?c")) = false.
Proof. apply cleanURL_has_no_query. reflexivity. Defined.

(** X4: a directory URL and the URL of its [index.html] are mapped to the
    same path, so the two documents are stored in one file. *)
Theorem cleanURL_index_collision (ROOT p : str) :
  includes [qmark] p = false ->
  p = [] \/ ends_with [slash] p = true ->
  cleanURL ROOT (ROOT ++ p ++ index_html) = cleanURL ROOT (ROOT ++ p).
Proof.
  intros Hp Hdir. rewrite !cleanURL_in_scope. cbv zeta.
  assert (Hpi : includes [qmark] (p ++ index_html) = false).
  { rewrite includes_single_app, Hp. reflexivity. }
  rewrite (strip_query_absent _ Hpi), (strip_query_absent _ Hp).
  assert (E0 : str_eqb (p ++ index_html) [] = false).
  { destruct p; reflexivity. }
  assert (E1 : str_eqb (p ++ index_html) [slash] = false).
  { apply str_eqb_neq. intros H. apply (f_equal length) in H.
    rewrite length_app in H. cbn in H. lia. }
  rewrite E0, E1, ends_with_index_html. cbn [orb].
  destruct Hdir as [-> | Hdir]; [reflexivity|].
  destruct p as [|c p]; [discriminate Hdir|].
  rewrite strip_leading_slash_app by discriminate.
  cbn [str_eqb orb].
  destruct ((c =? slash) && str_eqb p []) eqn:E.
  - apply andb_true_iff in E as [Hc E]. apply str_eqb_eq in E as ->.
    cbn [strip_leading_slash]. rewrite Hc. reflexivity.
  - rewrite Hdir. rewrite strip_leading_slash_app by discriminate. reflexivity.
Qed.

Lemma cleanURL_index_collision_witness :
  cleanURL site_example (site_example ++ js "/blog/" ++ index_html)
  = cleanURL site_example (site_example ++ js "/blog/").
Proof. apply cleanURL_index_collision; [reflexivity | right; reflexivity]. Defined.

(** ** Rewriting on arbitrary input *)

Lemma matches_at_escaped (x s : str) :
  matches_at (escaped x) s = starts_with x s.
Proof.
  revert s; induction x as [|c x IH]; intros [|d s]; cbn; try reflexivity.
  rewrite IH. reflexivity.
Qed.

Lemma occurs_escaped (x s : str) : occurs (escaped x) s = includes x s.
Proof.
  induction s as [|d s IH]; cbn [occurs includes]; rewrite matches_at_escaped;
    [reflexivity | rewrite IH; reflexivity].
Qed.

Lemma occurs_here (p : pattern) (s : str) :
  occurs p s = false -> matches_at p s = false.
Proof. destruct s; cbn [occurs]; intros H; apply orb_false_iff in H as [H _]; exact H. Qed.

Lemma occurs_drop (p : pattern) (n : nat) (s : str) :
  occurs p s = false -> occurs p (drop n s) = false.
Proof.
  revert s; induction n as [|n IH]; intros s H; [destruct s; exact H|].
  destruct s as [|c s]; [exact H|]. cbn [drop]. apply IH.
  cbn [occurs] in H. apply orb_false_iff in H as [_ H]. exact H.
Qed.

Lemma replace_all_absent (p : pattern) (rep s : str) :
  occurs p s = false -> replace_all p rep s = s.
Proof.
  unfold replace_all. induction s as [|c s IH]; intros H.
  - destruct p; [discriminate H | reflexivity].
  - cbn [occurs] in H. apply orb_false_iff in H as [Hm H].
    cbn [replace_all_from]. destruct p as [|i p]; [discriminate Hm|].
    rewrite Hm, (IH H). reflexivity.
Qed.

(** X5: markup in which neither the origin occurs nor a double-quoted
    [href], [src] or [url(] reference that starts with a separator is
    stored as it was rendered. *)
Theorem rewriteHTML_nothing_to_rewrite (ROOT html : str) :
  includes ROOT html = false ->
  includes (jsq "href='/") html = false ->
  includes (jsq "src='/") html = false ->
  includes (jsq "url('/") html = false ->
  rewriteHTML ROOT html = html.
Proof.
  intros H0 H1 H2 H3. unfold rewriteHTML.
  rewrite (replace_all_absent (escaped ROOT)) by (rewrite occurs_escaped; exact H0).
  rewrite (replace_all_absent (escaped (jsq "href='/")))
    by (rewrite occurs_escaped; exact H1).
  rewrite (replace_all_absent (escaped (jsq "src='/")))
    by (rewrite occurs_escaped; exact H2).
  apply replace_all_absent. rewrite occurs_escaped. exact H3.
Qed.

Lemma rewriteHTML_nothing_to_rewrite_witness :
  rewriteHTML site_example (jsq "<a href='about/'><img src='img/a.png'></a>")
  = jsq "<a href='about/'><img src='img/a.png'></a>".
Proof. apply rewriteHTML_nothing_to_rewrite; reflexivity. Defined.

Lemma matches_at_length (p : pattern) (s : str) :
  matches_at p s = true -> (length p <= length s)%nat.
Proof.
  revert s; induction p as [|i p IH]; intros [|c s] H; cbn in *;
    try lia; try discriminate.
  apply andb_true_iff in H as [_ H]. apply IH in H. lia.
Qed.

Lemma replace_all_from_length (p : pattern) (rep : str) (k : nat) (s : str) :
  (length rep <= length p)%nat ->
  (length (replace_all_from p rep k s) + min k (length s) <= length s)%nat.
Proof.
  intros Hrep. revert k; induction s as [|c s IH]; intros k.
  - cbn [replace_all_from length]. destruct p, k; cbn in *; lia.
  - cbn [replace_all_from]. destruct k as [|k].
    + destruct p as [|i p].
      * specialize (IH 0%nat). rewrite length_app. cbn in *. lia.
      * destruct (matches_at (i :: p) (c :: s)) eqn:Hm.
        -- apply matches_at_length in Hm. specialize (IH (length p)).
           rewrite length_app. cbn in *. lia.
        -- specialize (IH 0%nat). cbn in *. lia.
    + specialize (IH k). cbn [length]. lia.
Qed.

Lemma replace_all_length (p : pattern) (rep s : str) :
  (length rep <= length p)%nat ->
  (length (replace_all p rep s) <= length s)%nat.
Proof.
  intros H. pose proof (replace_all_from_length p rep 0 s H). unfold replace_all. lia.
Qed.

(** X6: [rewriteHTML] only removes text: its result is never longer than
    the markup it is given. *)
Theorem rewriteHTML_never_longer (ROOT html : str) :
  (length (rewriteHTML ROOT html) <= length html)%nat.
Proof.
  unfold rewriteHTML.
  etransitivity; [apply replace_all_length; cbn; lia|].
  etransitivity; [apply replace_all_length; cbn; lia|].
  etransitivity; [apply replace_all_length; cbn; lia|].
  apply replace_all_length. cbn. lia.
Qed.

Lemma matches_at_app (a r : pattern) (s : str) :
  matches_at (a ++ r) s = matches_at a s && matches_at r (drop (length a) s).
Proof.
  revert s; induction a as [|i a IH]; intros s.
  - destruct s; reflexivity.
  - destruct s as [|c s]; [reflexivity|]. cbn [app matches_at length drop].
    rewrite IH, andb_assoc. reflexivity.
Qed.

Lemma occurs_weaken (p q : pattern) (s : str) :
  (forall t, matches_at p t = true -> matches_at q t = true) ->
  occurs q s = false -> occurs p s = false.
Proof.
  intros Hpq. induction s as [|c s IH]; cbn [occurs]; intros H;
    apply orb_false_iff in H as [Hq H].
  - destruct (matches_at p []) eqn:E; [|reflexivity].
    apply Hpq in E. congruence.
  - rewrite (IH H), orb_false_r.
    destruct (matches_at p (c :: s)) eqn:E; [|reflexivity].
    apply Hpq in E. congruence.
Qed.

Lemma occurs_after_prefix (a r : pattern) (s : str) :
  occurs r s = false -> occurs (a ++ r) s = false.
Proof.
  intros H. induction s as [|c s IH].
  - cbn [occurs]. rewrite matches_at_app, orb_false_r.
    rewrite (occurs_here _ _ (occurs_drop _ (length a) _ H)). apply andb_false_r.
  - cbn [occurs]. rewrite matches_at_app.
    rewrite (occurs_here _ _ (occurs_drop _ (length a) _ H)), andb_false_r.
    apply IH. cbn [occurs] in H. apply orb_false_iff in H as [_ H]. exact H.
Qed.

Lemma regex_of_source_covers (x : str) (r : pattern) (t : str) :
  regex_of_source x = Some r ->
  matches_at (escaped x) t = true -> matches_at r t = true.
Proof.
  revert r t; induction x as [|c x IH]; intros r t Hr Hm.
  - injection Hr as <-. reflexivity.
  - cbn [regex_of_source] in Hr.
    destruct (regex_of_source x) as [r'|]; [|discriminate].
    destruct t as [|d t]; [discriminate Hm|].
    cbn [escaped map matches_at pitem_matches] in Hm.
    apply andb_true_iff in Hm as [Hc Hm]. apply N.eqb_eq in Hc as <-.
    specialize (IH r' t eq_refl Hm).
    destruct (N.eqb_spec c 46) as [->|_].
    + injection Hr as <-. cbn [matches_at pitem_matches]. rewrite IH. reflexivity.
    + destruct ((c =? 45) || (c =? slash)).
      * injection Hr as <-. cbn [matches_at pitem_matches].
        rewrite N.eqb_refl, IH. reflexivity.
      * destruct (is_regex_special c); [discriminate|].
        injection Hr as <-. cbn [matches_at pitem_matches].
        rewrite N.eqb_refl, IH. reflexivity.
Qed.

(** X7: for an origin that holds no character special to regular
    expressions other than [.], [-] and [/] (so that [regex_of_source]
    reads it, a [.] matching any character): when that expression matches
    nowhere in a style sheet, [rewriteCSS] gives the style sheet back
    unchanged. *)
Theorem rewriteCSS_nothing_to_rewrite (ROOT css : str) (r : pattern)
    (host : host_regexp) :
  regex_of_source ROOT = Some r ->
  occurs r css = false ->
  rewriteCSS ROOT host css = Some css.
Proof.
  intros Hr H. unfold rewriteCSS, RegExp_g. rewrite Hr. f_equal.
  rewrite (replace_all_absent (escaped (jsq "url('") ++ r))
    by (apply occurs_after_prefix, H).
  rewrite (replace_all_absent (escaped (js "url(") ++ r))
    by (apply occurs_after_prefix, H).
  apply replace_all_absent.
  apply (occurs_weaken _ r); [|exact H].
  intros t. apply regex_of_source_covers, Hr.
Qed.

Lemma rewriteCSS_nothing_to_rewrite_witness :
  rewriteCSS site_example (fun _ => None) (jsq "a{background:url('img/a.png')}")
  = Some (jsq "a{background:url('img/a.png')}").
Proof.
  refine (rewriteCSS_nothing_to_rewrite site_example _ _ _ eq_refl _).
  vm_compute. reflexivity.
Defined.

(** ** Reading the sitemap *)

(** X8: a sitemap in which every entry holds neither [<] nor a line
    terminator, and in which [<loc>] occurs nowhere else, is read back as
    exactly its entries, in order and untrimmed, whatever other tags and
    text stand between them. *)
Theorem loc_entries_reads_entries (items : list (str * str)) (tail : str) :
  forallb plain_item items = true ->
  includes (js "<loc>") tail = false ->
  loc_entries (sitemap_of items tail) = map snd items.
Proof. apply loc_entries_sitemap_of. Qed.

Lemma loc_entries_reads_entries_witness :
  loc_entries
    (sitemap_of [(js "<urlset><url>", js " https://site.example/a ");
                 (js "<lastmod>2024</lastmod></url><url>", js "https://site.example/b")]
                (js "</url></urlset>"))
  = [js " https://site.example/a "; js "https://site.example/b"].
Proof. apply loc_entries_reads_entries; reflexivity. Defined.

(** X9: an entry that is broken over several lines is not read, and the
    reading goes on after it. *)
Theorem loc_entries_skips_broken_entry (b u rest : str) :
  includes (js "<loc>") b = false ->
  includes [lt_sign] u = false ->
  no_line_terminator u = false ->
  loc_entries (b ++ js "<loc>" ++ u ++ js "</loc>" ++ rest) = loc_entries rest.
Proof.
  intros Hb Hu Hnl. unfold loc_entries.
  change (js "<loc>" ++ u ++ js "</loc>" ++ rest)
    with (lt_sign :: js "loc>" ++ u ++ js "</loc>" ++ rest).
  rewrite (loc_entries_skip_before _ _ Hb).
  cbn [loc_entries_from].
  change (starts_with (js "<loc>") (lt_sign :: js "loc>" ++ _)) with true. cbn iota.
  change (drop 5 _) with (u ++ js "</loc>" ++ rest).
  rewrite (lazy_until_broken _ _ Hu Hnl).
  replace (js "loc>" ++ u ++ js "</loc>" ++ rest)
    with ((js "loc>" ++ u) ++ js "</loc>" ++ rest)
    by (rewrite <- app_assoc; reflexivity).
  rewrite loc_entries_skip_plain.
  2:{ rewrite includes_single_app, Hu. reflexivity. }
  change (js "</loc>" ++ rest) with (lt_sign :: (js "/loc>" ++ rest)).
  rewrite loc_entries_skip_char by reflexivity.
  apply loc_entries_skip_plain. reflexivity.
Qed.

Lemma loc_entries_skips_broken_entry_witness :
  loc_entries (js "<url>" ++ js "<loc>"
               ++ ([10; 32] ++ js "https://site.example/a" ++ [10])
               ++ js "</loc>" ++ js "</url><loc>https://site.example/b</loc>")
  = loc_entries (js "</url><loc>https://site.example/b</loc>").
Proof. apply loc_entries_skips_broken_entry; reflexivity. Defined.

(** X10: a sitemap that is fetched successfully but holds no [<loc>] at
    all (an empty or unrelated document) seeds nothing: the pending set is
    the initial URL alone. *)
Theorem sitemap_without_entries (ROOT xml : str) :
  includes (js "<loc>") xml = false ->
  queued (boot ROOT (FetchResponse true (Some xml))) = [ROOT].
Proof.
  intros H. unfold boot, loadSitemap, loc_entries.
  rewrite (loc_entries_absent _ H). reflexivity.
Qed.

Lemma sitemap_without_entries_witness :
  queued (boot site_example (FetchResponse true (Some (js "<html>Not found</html>"))))
  = [site_example].
Proof. apply sitemap_without_entries. reflexivity. Defined.

(** ** Link discovery *)

Lemma enqueue_links_elem_of (v links q : list str) (u : str) :
  u ∈ enqueue_links v links q <->
  u ∈ q \/ (u ∈ links /\ JsSet.has u v = false).
Proof.
  unfold enqueue_links. revert q; induction links as [|l links IH]; intros q.
  - cbn [foldl]. rewrite elem_of_nil. tauto.
  - cbn [foldl]. rewrite IH, elem_of_cons. destruct (JsSet.has l v) eqn:El.
    + split; [tauto|]. intros [H | [[-> | H] Hv]]; [tauto | congruence | tauto].
    + rewrite add_elem_of. split; [|tauto].
      intros [[-> | H] | H]; [right; split; [left; reflexivity | exact El] | tauto | tauto].
Qed.

(** X11: after the links of a page are enqueued, the pending set holds
    what it held before and, of the trimmed [href]s of the page, exactly
    those that start with the origin, contain no [#] and are not in the
    visited set. *)
Theorem discovered_links_enqueued (origin : str) (hrefs v q : list str) (u : str) :
  u ∈ enqueue_links v (extractLinks origin hrefs) q <->
  u ∈ q \/
  ((exists h, h ∈ hrefs /\ u = trim h) /\
   starts_with origin u = true /\ includes [hash] u = false /\
   JsSet.has u v = false).
Proof.
  rewrite enqueue_links_elem_of. unfold extractLinks.
  rewrite (list_elem_of_In (List.filter _ _)).
  rewrite filter_In, in_map_iff, andb_true_iff, negb_true_iff.
  split.
  - intros [H | [[[h [<- Hh]] [Ho Hf]] Hv]]; [tauto|]. right.
    repeat split; try assumption. exists h. split; [|reflexivity].
    apply (proj2 (list_elem_of_In _ _)), Hh.
  - intros [H | [[h [Hh ->]] (Ho & Hf & Hv)]]; [tauto|]. right.
    repeat split; try assumption. exists h. split; [reflexivity|].
    apply (proj1 (list_elem_of_In _ _)), Hh.
Qed.

(** ** Scrolling *)

Lemma fullScroll_from_constant (h ih : Z) (m : nat) (total : Z) (n : nat) :
  fullScroll_from total (replicate m (h, ih)) = Some n <->
  (1 <= n <= m)%nat /\
  (h - ih <= total + 600 * Z.of_nat n)%Z /\
  (n = 1%nat \/ total + 600 * (Z.of_nat n - 1) < h - ih)%Z.
Proof.
  revert total n; induction m as [|m IH]; intros total n; cbn [replicate fullScroll_from].
  - split; [discriminate | lia].
  - destruct (Z.leb_spec (h - ih) (total + 600)) as [Hle | Hgt].
    + split; [intros [= <-]; lia|]. intros (Hn & H1 & H2). f_equal. lia.
    + destruct (fullScroll_from (total + 600) (replicate m (h, ih))) as [n'|] eqn:E;
        cbn [option_map].
      * apply IH in E. split; [intros [= <-]; lia|].
        intros (Hn & H1 & H2). f_equal.
        destruct n as [|n]; [lia|]. f_equal.
        assert (E' : fullScroll_from (total + 600) (replicate m (h, ih)) = Some n)
          by (apply IH; lia).
        apply IH in E'. lia.
      * split; [discriminate|]. intros (Hn & H1 & H2).
        destruct n as [|n]; [lia|].
        assert (E' : fullScroll_from (total + 600) (replicate m (h, ih)) = Some n)
          by (apply IH; lia).
        congruence.
Qed.

(** X12: on a page whose height does not change, [fullScroll] is resolved
    after [n] ticks exactly when [n] is the least positive number of steps
    of 600 that covers the height below the viewport; at least one scroll
    is always made, also on a page that fits the viewport. *)
Theorem fullScroll_constant_height (h ih : Z) (m n : nat) :
  fullScroll (replicate m (h, ih)) = Some n <->
  (1 <= n <= m)%nat /\
  (h - ih <= 600 * Z.of_nat n)%Z /\
  (n = 1%nat \/ 600 * (Z.of_nat n - 1) < h - ih)%Z.
Proof. unfold fullScroll. rewrite fullScroll_from_constant. lia. Qed.

Lemma fullScroll_from_growing (rs : list (Z * Z)) (total : Z) :
  (forall k h ih, rs !! k = Some (h, ih) ->
                  (total + 600 * (Z.of_nat k + 1) < h - ih)%Z) ->
  fullScroll_from total rs = None.
Proof.
  revert total; induction rs as [|[h ih] rs IH]; intros total H; [reflexivity|].
  cbn [fullScroll_from].
  pose proof (H 0%nat h ih eq_refl) as H0.
  destruct (Z.leb_spec (h - ih) (total + 600)) as [Hle | _]; [lia|].
  rewrite IH; [reflexivity|].
  intros k h' ih' Hk. specialize (H (S k) h' ih' Hk). lia.
Qed.

(** X13: [fullScroll] has no bound of its own: whatever the number of
    ticks, it is still unresolved when at every tick the page is taller
    than the viewport plus what has been scrolled (a page that loads more
    content as fast as it is scrolled). *)
Theorem fullScroll_unresolved_while_page_grows (rs : list (Z * Z)) :
  (forall k h ih, rs !! k = Some (h, ih) ->
                  (600 * (Z.of_nat k + 1) < h - ih)%Z) ->
  fullScroll rs = None.
Proof.
  intros H. apply fullScroll_from_growing. intros k h ih Hk.
  specialize (H k h ih Hk). lia.
Qed.

Lemma fullScroll_unresolved_while_page_grows_witness :
  fullScroll [(2000, 800); (2600, 800); (3200, 800)]%Z = None.
Proof.
  apply fullScroll_unresolved_while_page_grows.
  intros [|[|[|k]]] h ih Hk; cbn in Hk; try discriminate;
    injection Hk as <- <-; lia.
Defined.

(** ** The head of the worker's loop *)

(** X14: the worker takes the oldest pending URL that is not visited, and
    drops the pending URLs before it, which are all visited; what comes
    after it stays pending in its order. *)
Theorem worker_loop_takes_oldest_unvisited (q v : list str) (u : str) (q' : list str) :
  worker_loop q v = (Some u, q') <->
  exists dropped, q = dropped ++ u :: q' /\
                  forallb (fun x => JsSet.has x v) dropped = true /\
                  JsSet.has u v = false.
Proof.
  split.
  - revert q'; induction q as [|x q IH]; intros q'; cbn [worker_loop]; [discriminate|].
    destruct (JsSet.has x v) eqn:E.
    + intros H. destruct (IH _ H) as (d & -> & Hd & Hu).
      exists (x :: d). cbn [forallb]. rewrite E, Hd. repeat split. exact Hu.
    + intros [= <- <-]. exists []. repeat split. exact E.
  - intros (d & -> & Hd & Hu). induction d as [|x d IH]; cbn [app worker_loop].
    + rewrite Hu. reflexivity.
    + cbn [forallb] in Hd. apply andb_true_iff in Hd as [Hx Hd].
      rewrite Hx. apply IH, Hd.
Qed.

(** ** The workers over a whole run *)

Section Runs.

Variable ROOT : str.
Variable html_rewriter : str -> str.
Variable css_rewriter : str -> option str.

Lemma enter_loop_shape (j : nat) (s : state) :
  exists pc', workers (enter_loop j s) = <[j := pc']> (workers s) /\
              (pc' = WDone -> queued (enter_loop j s) = []) /\
              (forall u, pc_url pc' = Some u -> u ∈ visited (enter_loop j s)) /\
              (forall u, u ∈ visited s -> u ∈ visited (enter_loop j s)) /\
              (forall u, u ∈ queued s ->
                         u ∈ queued (enter_loop j s) \/ u ∈ visited (enter_loop j s)) /\
              disk (enter_loop j s) = disk s /\
              handlers (enter_loop j s) = handlers s.
Proof.
  unfold enter_loop.
  destruct (worker_loop (queued s) (visited s)) as [[url|] q'] eqn:E;
    cbn [workers queued visited disk handlers set_worker log set_visited set_queued].
  - exists (WRendering url). repeat split; try discriminate.
    + intros u [= <-]. apply add_elem_of. left; reflexivity.
    + intros u Hu. apply add_elem_of. right; exact Hu.
    + intros u Hu. rewrite add_elem_of.
      revert q' E. induction (queued s) as [|x q IH]; intros q' E;
        [inversion Hu|]. cbn [worker_loop] in E.
      destruct (JsSet.has x (visited s)) eqn:Ex.
      * apply elem_of_cons in Hu as [-> | Hu]; [|apply (IH Hu _ E)].
        right. right. apply has_elem_of, Ex.
      * injection E as <- <-. apply elem_of_cons in Hu as [-> | Hu]; tauto.
  - apply worker_loop_none in E as [-> Hall].
    exists WDone. repeat split; try discriminate; auto.
Qed.

Lemma retry_shape (j : nat) (url : str) (s : state) :
  exists pc', workers (retry j url s) = <[j := pc']> (workers s) /\
              (pc' = WDone -> queued (retry j url s) = []) /\
              (forall u, pc_url pc' = Some u -> u ∈ visited (retry j url s)) /\
              (forall u, u ∈ visited s -> u ∈ visited (retry j url s)) /\
              (forall u, u ∈ queued s ->
                         u ∈ queued (retry j url s) \/ u ∈ visited (retry j url s)) /\
              disk (retry j url s) = disk s /\
              handlers (retry j url s) = handlers s.
Proof.
  unfold retry.
  destruct (enter_loop_shape j
              (set_queued (JsSet.add url (queued s)) (log (Retry url) s)))
    as (pc' & H1 & H2 & H3 & H4 & H5 & H6 & H7).
  exists pc'. repeat split; try assumption.
  intros u Hu. apply H5. cbn [queued set_queued log].
  apply add_elem_of. right; exact Hu.
Qed.

(** A step of a worker moves one worker that had not left its loop. *)
Lemma worker_step_shape (s s' : state) (l : label) :
  step ROOT html_rewriter css_rewriter s l = Some s' -> is_worker_label l = true ->
  exists j pc pc',
    workers s !! j = Some pc /\ pc <> WDone /\
    workers s' = <[j := pc']> (workers s) /\
    (pc' = WDone -> queued s' = []) /\
    (forall u, pc_url pc' = Some u -> pc_url pc = Some u \/ u ∈ visited s') /\
    (forall u, u ∈ visited s -> u ∈ visited s') /\
    (forall u, u ∈ queued s -> u ∈ queued s' \/ u ∈ visited s') /\
    handlers s' = handlers s /\
    (disk s' = disk s \/
     exists u html, pc = WRendering u /\
       disk s' = disk s ++ [{| w_by := ByWorker; w_path := cleanURL ROOT u;
                               w_data := html_rewriter html |}]).
Proof.
  destruct l as [i | i html stored | i links | i ok | url | k body stored];
    cbn [step is_worker_label]; try discriminate; intros H _;
    destruct (workers s !! i) as [pc|] eqn:Ei; try discriminate;
    destruct pc as [| u | u | u |]; try discriminate.
  - injection H as <-.
    destruct (enter_loop_shape i s) as (pc' & H1 & H2 & H3 & H4 & H5 & H6 & H7).
    exists i, WInit, pc'. repeat split; auto; discriminate.
  - assert (Hretry : s' = retry i u s ->
      exists j pc pc',
        workers s !! j = Some pc /\ pc <> WDone /\
        workers s' = <[j := pc']> (workers s) /\
        (pc' = WDone -> queued s' = []) /\
        (forall x, pc_url pc' = Some x -> pc_url pc = Some x \/ x ∈ visited s') /\
        (forall x, x ∈ visited s -> x ∈ visited s') /\
        (forall x, x ∈ queued s -> x ∈ queued s' \/ x ∈ visited s') /\
        handlers s' = handlers s /\
        (disk s' = disk s \/
         exists x html, pc = WRendering x /\
           disk s' = disk s ++ [{| w_by := ByWorker; w_path := cleanURL ROOT x;
                                   w_data := html_rewriter html |}])).
    { intros ->.
      destruct (retry_shape i u s) as (pc' & H1 & H2 & H3 & H4 & H5 & H6 & H7).
      exists i, (WRendering u), pc'. repeat split; auto; discriminate. }
    destruct html as [h|]; [destruct stored|]; injection H as <-; auto.
    exists i, (WRendering u), (WExtracting u).
    cbn [workers queued visited disk handlers set_worker writeFile].
    repeat split; auto; try discriminate.
    right. exists u, h. split; reflexivity.
  - destruct links as [ls|]; injection H as <-.
    + exists i, (WExtracting u), (WClosing u).
      cbn [workers queued visited disk handlers set_worker set_queued].
      repeat split; auto; try discriminate.
      intros x Hx. left. apply enqueue_links_elem_of. left; exact Hx.
    + destruct (retry_shape i u s) as (pc' & H1 & H2 & H3 & H4 & H5 & H6 & H7).
      exists i, (WExtracting u), pc'. repeat split; auto; discriminate.
  - destruct ok; injection H as <-.
    + destruct (enter_loop_shape i s) as (pc' & H1 & H2 & H3 & H4 & H5 & H6 & H7).
      exists i, (WClosing u), pc'. repeat split; auto; discriminate.
    + destruct (retry_shape i u s) as (pc' & H1 & H2 & H3 & H4 & H5 & H6 & H7).
      exists i, (WClosing u), pc'. repeat split; auto; discriminate.
Qed.

Lemma step_done_stays (s s' : state) (l : label) (i : nat) :
  step ROOT html_rewriter css_rewriter s l = Some s' ->
  workers s !! i = Some WDone -> workers s' !! i = Some WDone.
Proof.
  intros H Hi. destruct (is_worker_label l) eqn:Ew.
  - destruct (worker_step_shape _ _ _ H Ew) as (j & pc & pc' & Hj & Hpc & Hw & _).
    rewrite Hw, list_lookup_insert_ne; [exact Hi|].
    intros ->. congruence.
  - destruct (sniffer_step_frontier_untouched _ _ _ _ _ _ H Ew) as (_ & _ & Hw & _).
    rewrite Hw. exact Hi.
Qed.

(** X15: a worker that has left its loop stays out of it for the rest of
    the run, whatever is enqueued afterwards: a worker that finds the
    pending set empty while another worker is still rendering takes no
    part in the crawl any more. *)
Theorem done_worker_stays_done (ls : list label) (s s' : state) (i : nat) :
  run ROOT html_rewriter css_rewriter s ls = Some s' ->
  workers s !! i = Some WDone ->
  workers s' !! i = Some WDone.
Proof.
  revert s; induction ls as [|l ls IH]; intros s; cbn [run].
  - intros [= <-] H. exact H.
  - destruct (step ROOT html_rewriter css_rewriter s l) as [s1|] eqn:E; [|discriminate].
    intros Hrun Hi. apply (IH s1 Hrun). eapply step_done_stays; eassumption.
Qed.

Lemma all_done_lookup (s : state) (i : nat) (pc : wpc) :
  all_done s = true -> workers s !! i = Some pc -> pc = WDone.
Proof.
  unfold all_done. rewrite forallb_forall. intros H Hi.
  apply list_elem_of_lookup_2, list_elem_of_In, H in Hi.
  destruct pc; try discriminate. reflexivity.
Qed.

Lemma step_all_done_empty (s s' : state) (l : label) :
  step ROOT html_rewriter css_rewriter s l = Some s' ->
  (all_done s = true -> queued s = []) ->
  all_done s' = true -> queued s' = [].
Proof.
  intros H Hs Hs'. destruct (is_worker_label l) eqn:Ew.
  - destruct (worker_step_shape _ _ _ H Ew)
      as (j & pc & pc' & Hj & Hpc & Hw & Hq & _).
    apply Hq. apply (all_done_lookup s' j); [exact Hs'|].
    rewrite Hw. apply list_lookup_insert_eq. eapply lookup_lt_Some, Hj.
  - destruct (sniffer_step_frontier_untouched _ _ _ _ _ _ H Ew) as (Hq & _ & Hw & _).
    rewrite Hq. apply Hs. unfold all_done in *. rewrite <- Hw. exact Hs'.
Qed.

Lemma step_keeps_known (s s' : state) (l : label) (u : str) :
  step ROOT html_rewriter css_rewriter s l = Some s' ->
  u ∈ queued s \/ u ∈ visited s -> u ∈ queued s' \/ u ∈ visited s'.
Proof.
  intros H Hu. destruct (is_worker_label l) eqn:Ew.
  - destruct (worker_step_shape _ _ _ H Ew)
      as (j & pc & pc' & _ & _ & _ & _ & _ & Hv & Hq & _).
    destruct Hu as [Hu | Hu]; [apply Hq, Hu | right; apply Hv, Hu].
  - destruct (sniffer_step_frontier_untouched _ _ _ _ _ _ H Ew) as (Hq & Hv & _).
    rewrite Hq, Hv. exact Hu.
Qed.

Lemma run_end_of_crawl (ls : list label) (s s' : state) :
  run ROOT html_rewriter css_rewriter s ls = Some s' ->
  (all_done s = true -> queued s = []) ->
  (all_done s' = true -> queued s' = []) /\
  (forall u, u ∈ queued s \/ u ∈ visited s -> u ∈ queued s' \/ u ∈ visited s').
Proof.
  revert s; induction ls as [|l ls IH]; intros s; cbn [run].
  - intros [= <-] H. split; [exact H | tauto].
  - destruct (step ROOT html_rewriter css_rewriter s l) as [s1|] eqn:E; [|discriminate].
    intros Hrun Hs.
    destruct (IH s1 Hrun (step_all_done_empty _ _ _ E Hs)) as [H1 H2].
    split; [exact H1|]. intros u Hu. apply H2.
    eapply step_keeps_known; eassumption.
Qed.

(** X16: when every worker has left its loop, nothing is pending any more,
    and every URL the crawl was seeded with (the initial URL and the
    entries of the sitemap) has been attempted, once. *)
Theorem end_of_crawl (r : sitemap_fetch) (ls : list label) (s : state) :
  run ROOT html_rewriter css_rewriter (boot ROOT r) ls = Some s ->
  all_done s = true ->
  queued s = [] /\
  forall u, u ∈ queued (boot ROOT r) -> crawl_count u (console s) = 1%nat.
Proof.
  intros Hrun Hdone.
  assert (Hboot : all_done (boot ROOT r) = true -> queued (boot ROOT r) = []).
  { destruct r as [|[] [xml|]]; discriminate. }
  destruct (run_end_of_crawl _ _ _ Hrun Hboot) as [Hq Hk].
  specialize (Hq Hdone). split; [exact Hq|].
  intros u Hu. destruct (Hk u (or_introl Hu)) as [H | H].
  - rewrite Hq in H. inversion H.
  - destruct (run_crawl_inv ROOT html_rewriter css_rewriter ls _ _ (boot_crawl_inv ROOT r) Hrun) as [_ Hc].
    rewrite Hc. apply has_elem_of in H. rewrite H. reflexivity.
Qed.

End Runs.

Lemma done_worker_stays_done_witness :
  workers state_one_worker_goes_on !! 1%nat = Some WDone.
Proof.
  apply (done_worker_stays_done site_example example_html example_css [Closed 0 true]
           state_one_worker_left).
  - vm_compute. reflexivity.
  - reflexivity.
Defined.

Lemma end_of_crawl_witness :
  queued state_two_pages = [] /\
  crawl_count site_example (console state_two_pages) = 1%nat.
Proof.
  destruct (end_of_crawl site_example example_html example_css FetchThrows run_two_pages
              state_two_pages)
    as [H1 H2].
  - vm_compute. reflexivity.
  - reflexivity.
  - split; [exact H1|]. apply H2. vm_compute. left.
Defined.

(** ** Where the files on the disk come from *)

Section Provenance.

Variable ROOT : str.
Variable html_rewriter : str -> str.
Variable css_rewriter : str -> option str.

Lemma boot_provenance (r : sitemap_fetch) : provenance_inv ROOT html_rewriter (boot ROOT r).
Proof.
  assert (Hw : workers (boot ROOT r) = replicate THREADS WInit)
    by (destruct r as [|[] [xml|]]; reflexivity).
  assert (Hd : disk (boot ROOT r) = []) by (destruct r as [|[] [xml|]]; reflexivity).
  assert (Hh : handlers (boot ROOT r) = []) by (destruct r as [|[] [xml|]]; reflexivity).
  repeat split.
  - intros i pc u Hi Hu. rewrite Hw in Hi.
    apply lookup_replicate in Hi as [-> _]. discriminate Hu.
  - intros w Hin. rewrite Hd in Hin. inversion Hin.
  - intros p Hin. rewrite Hh in Hin. inversion Hin.
  - intros w Hin. rewrite Hd in Hin. inversion Hin.
Qed.

Lemma step_provenance (s s' : state) (l : label) :
  provenance_inv ROOT html_rewriter s -> step ROOT html_rewriter css_rewriter s l = Some s' -> provenance_inv ROOT html_rewriter s'.
Proof.
  intros (Hpc & Hww & Hsh & Hsw) H. destruct (is_worker_label l) eqn:Ew.
  - destruct (worker_step_shape _ _ _ _ _ _ H Ew)
      as (j & pc & pc' & Hj & _ & Hw & _ & Hurl & Hv & _ & Hh & Hd).
    repeat split.
    + intros i pc0 u Hi Hu. rewrite Hw in Hi.
      apply list_lookup_insert_Some in Hi as [(-> & -> & _) | (_ & Hi)].
      * destruct (Hurl u Hu) as [Hu' | Hu']; [|exact Hu'].
        apply Hv. eapply Hpc; eassumption.
      * apply Hv. eapply Hpc; eassumption.
    + intros w Hin Hby.
      destruct Hd as [Hd | (u & html & -> & Hd)]; rewrite Hd in Hin.
      * destruct (Hww w Hin Hby) as (u & html & Hu & Hp & Hdat).
        exists u, html. auto.
      * apply elem_of_app in Hin as [Hin | Hin].
        -- destruct (Hww w Hin Hby) as (u' & html' & Hu & Hp & Hdat).
           exists u', html'. auto.
        -- apply list_elem_of_singleton in Hin as ->.
           exists u, html. repeat split. apply Hv. eapply Hpc; [exact Hj | reflexivity].
    + intros p Hin. rewrite Hh in Hin. apply Hsh, Hin.
    + intros w Hin Hby.
      destruct Hd as [Hd | (u & html & -> & Hd)]; rewrite Hd in Hin.
      * apply Hsw; assumption.
      * apply elem_of_app in Hin as [Hin | Hin]; [apply Hsw; assumption|].
        apply list_elem_of_singleton in Hin as ->. discriminate Hby.
  - destruct (sniffer_step_frontier_untouched _ _ _ _ _ _ H Ew) as (_ & Hv & Hw & _).
    assert (Hpc' : pcs_visited s').
    { intros i pc u Hi Hu. rewrite Hv. rewrite Hw in Hi. eapply Hpc; eassumption. }
    destruct l as [i | i html stored | i links | i ok | url | k body stored];
      try discriminate; cbn [step] in H.
    + injection H as <-. unfold sniff_response in *.
      destruct (starts_with ROOT url) eqn:Hscope; cbn [negb] in *;
        [|repeat split; assumption].
      destruct (JsSet.has (cleanURL ROOT url) (saving s));
        [repeat split; assumption|].
      repeat split; try assumption.
      cbn [handlers set_handlers set_saving]. intros p Hin.
      apply elem_of_app in Hin as [Hin | Hin]; [apply Hsh, Hin|].
      apply list_elem_of_singleton in Hin as ->. exists url. split; [exact Hscope | reflexivity].
    + destruct (handlers s !! k) as [c|] eqn:Ek; [|discriminate].
      assert (Hc : in_scope_path ROOT c) by (eapply Hsh, list_elem_of_lookup_2, Ek).
      assert (Hdel : forall p, p ∈ base.delete k (handlers s) -> in_scope_path ROOT p).
      { intros p Hin. eapply Hsh, list_elem_of_delete_inv, Hin. }
      injection H as <-.
      destruct (sniff_body_cases css_rewriter c body stored
                  (set_handlers (base.delete k (handlers s)) s)) as [[d ->] | ->];
        repeat split; try assumption.
      * cbn [disk writeFile set_handlers]. intros w Hin Hby.
        apply elem_of_app in Hin as [Hin | Hin];
          [destruct (Hww w Hin Hby) as (u & html & ?); eauto|].
        apply list_elem_of_singleton in Hin as ->. discriminate Hby.
      * cbn [disk writeFile set_handlers]. intros w Hin Hby.
        apply elem_of_app in Hin as [Hin | Hin]; [apply Hsw; assumption|].
        apply list_elem_of_singleton in Hin as ->. exact Hc.
Qed.

Lemma run_provenance (ls : list label) (s s' : state) :
  provenance_inv ROOT html_rewriter s -> run ROOT html_rewriter css_rewriter s ls = Some s' -> provenance_inv ROOT html_rewriter s'.
Proof.
  revert s; induction ls as [|l ls IH]; intros s Hinv; cbn [run].
  - intros [= <-]. exact Hinv.
  - destruct (step ROOT html_rewriter css_rewriter s l) as [s1|] eqn:E; [|discriminate].
    apply IH. eapply step_provenance; eassumption.
Qed.

(** X17: every document that a worker has written is the rewritten markup
    of a page, at the path of a URL that is in the visited set and was
    attempted once. *)
Theorem worker_writes_come_from_visited (r : sitemap_fetch) (ls : list label)
    (s : state) (w : write) :
  run ROOT html_rewriter css_rewriter (boot ROOT r) ls = Some s ->
  w ∈ disk s -> w_by w = ByWorker ->
  exists u html, crawl_count u (console s) = 1%nat /\
                 w_path w = cleanURL ROOT u /\
                 w_data w = html_rewriter html.
Proof.
  intros Hrun Hin Hby.
  destruct (run_provenance _ _ _ (boot_provenance r) Hrun) as (_ & Hww & _).
  destruct (Hww w Hin Hby) as (u & html & Hu & Hp & Hd).
  exists u, html. repeat split; try assumption.
  destruct (run_crawl_inv ROOT html_rewriter css_rewriter ls _ _ (boot_crawl_inv ROOT r) Hrun) as [_ Hc].
  rewrite Hc. apply has_elem_of in Hu. rewrite Hu. reflexivity.
Qed.

Lemma writes_by_member (w : write) (d : list write) :
  w ∈ d -> w_by w = BySniffer ->
  (1 <= writes_by BySniffer (w_path w) d)%nat.
Proof.
  intros Hin Hby. induction d as [|x d IH]; [inversion Hin|].
  cbn [writes_by]. apply elem_of_cons in Hin as [<- | Hin].
  - unfold written_by. rewrite Hby, str_eqb_refl. lia.
  - specialize (IH Hin). lia.
Qed.

(** X18: with the style-sheet rewriter of the file whatever it is, every
    file that the sniffer has written is at the [cleanURL] of a URL of which
    [ROOT] is a prefix as a string ([startsWith]), and that path is
    claimed. *)
Theorem sniffer_writes_are_in_scope (r : sitemap_fetch) (ls : list label)
    (s : state) (w : write) :
  run ROOT html_rewriter css_rewriter (boot ROOT r) ls = Some s ->
  w ∈ disk s -> w_by w = BySniffer ->
  JsSet.has (w_path w) (saving s) = true /\
  exists url, starts_with ROOT url = true /\ w_path w = cleanURL ROOT url.
Proof.
  intros Hrun Hin Hby.
  destruct (run_provenance _ _ _ (boot_provenance r) Hrun) as (_ & _ & _ & Hsw).
  split; [|apply Hsw; assumption].
  pose proof (run_sniff_inv ROOT html_rewriter css_rewriter ls _ _ (boot_sniff_inv ROOT r) Hrun (w_path w)) as Hinv.
  pose proof (writes_by_member _ _ Hin Hby) as Hpos.
  destruct (JsSet.has (w_path w) (saving s)); [reflexivity | lia].
Qed.

End Provenance.

Lemma worker_writes_come_from_visited_witness :
  exists u html, crawl_count u (console state_two_pages) = 1%nat /\
                 js "about" = cleanURL site_example u /\
                 jsq "<a href=''>" = rewriteHTML site_example html.
Proof.
  apply (worker_writes_come_from_visited site_example example_html example_css FetchThrows
           run_two_pages
           state_two_pages
           {| w_by := ByWorker; w_path := js "about"; w_data := jsq "<a href=''>" |}).
  - vm_compute. reflexivity.
  - right. left.
  - reflexivity.
Defined.

Lemma sniffer_writes_are_in_scope_witness :
  JsSet.has (js "a.css") (saving state_asset_stored) = true /\
  exists url, starts_with site_example url = true /\
              js "a.css" = cleanURL site_example url.
Proof.
  apply (sniffer_writes_are_in_scope site_example example_html example_css FetchThrows
           run_asset_stored
           state_asset_stored
           {| w_by := BySniffer; w_path := js "a.css"; w_data := js "body{margin:0}" |}).
  - vm_compute. reflexivity.
  - left.
  - reflexivity.
Defined.

(** ** Workers and URLs *)

Section Workers.

Variable ROOT : str.
Variable html_rewriter : str -> str.
Variable css_rewriter : str -> option str.

Lemma enter_loop_fresh (j : nat) (s : state) :
  exists pc', workers (enter_loop j s) = <[j := pc']> (workers s) /\
              forall u, pc_url pc' = Some u -> u ∉ visited s.
Proof.
  unfold enter_loop.
  destruct (worker_loop (queued s) (visited s)) as [[url|] q'] eqn:E;
    cbn [workers set_worker log set_visited set_queued].
  - exists (WRendering url). split; [reflexivity|].
    intros u [= <-]. apply worker_loop_some in E as (Hu & _). apply has_false, Hu.
  - exists WDone. split; [reflexivity | discriminate].
Qed.

(** The URL of the worker that moves is the one it had, or one that was
    not visited. *)
Lemma worker_step_url (s s' : state) (l : label) :
  step ROOT html_rewriter css_rewriter s l = Some s' -> is_worker_label l = true ->
  exists j pc pc',
    workers s !! j = Some pc /\
    workers s' = <[j := pc']> (workers s) /\
    forall u, pc_url pc' = Some u -> pc_url pc = Some u \/ u ∉ visited s.
Proof.
  destruct l as [i | i html stored | i links | i ok | url | k body stored];
    cbn [step is_worker_label]; try discriminate; intros H _;
    destruct (workers s !! i) as [pc|] eqn:Ei; try discriminate;
    destruct pc as [| u | u | u |]; try discriminate.
  - injection H as <-. destruct (enter_loop_fresh i s) as (pc' & H1 & H2).
    exists i, WInit, pc'. repeat split; auto.
  - destruct html as [h|]; [destruct stored|]; injection H as <-.
    + exists i, (WRendering u), (WExtracting u). repeat split; auto.
    + destruct (enter_loop_fresh i
                  (set_queued (JsSet.add u (queued s)) (log (Retry u) s)))
        as (pc' & H1 & H2).
      exists i, (WRendering u), pc'. repeat split; auto.
    + destruct (enter_loop_fresh i
                  (set_queued (JsSet.add u (queued s)) (log (Retry u) s)))
        as (pc' & H1 & H2).
      exists i, (WRendering u), pc'. repeat split; auto.
  - destruct links as [ls|]; injection H as <-.
    + exists i, (WExtracting u), (WClosing u). repeat split; auto.
    + destruct (enter_loop_fresh i
                  (set_queued (JsSet.add u (queued s)) (log (Retry u) s)))
        as (pc' & H1 & H2).
      exists i, (WExtracting u), pc'. repeat split; auto.
  - destruct ok; injection H as <-.
    + destruct (enter_loop_fresh i s) as (pc' & H1 & H2).
      exists i, (WClosing u), pc'. repeat split; auto.
    + destruct (enter_loop_fresh i
                  (set_queued (JsSet.add u (queued s)) (log (Retry u) s)))
        as (pc' & H1 & H2).
      exists i, (WClosing u), pc'. repeat split; auto.
Qed.

Lemma step_distinct_urls (s s' : state) (l : label) :
  pcs_visited s -> distinct_urls s ->
  step ROOT html_rewriter css_rewriter s l = Some s' -> distinct_urls s'.
Proof.
  intros Hpc Hd H. destruct (is_worker_label l) eqn:Ew.
  - destruct (worker_step_url _ _ _ H Ew) as (j & pc & pc' & Hj & Hw & Hu).
    intros i k pci pck u Hi Hk Hui Huk. rewrite Hw in Hi, Hk.
    apply list_lookup_insert_Some in Hi as [(-> & -> & _) | (Hji & Hi)];
      apply list_lookup_insert_Some in Hk as [(-> & -> & _) | (Hjk & Hk)];
      try reflexivity.
    + destruct (Hu u Hui) as [Hold | Hnew].
      * exact (Hd _ _ _ _ _ Hj Hk Hold Huk).
      * exfalso. apply Hnew. eapply Hpc; eassumption.
    + destruct (Hu u Huk) as [Hold | Hnew].
      * exact (Hd _ _ _ _ _ Hi Hj Hui Hold).
      * exfalso. apply Hnew. eapply Hpc; eassumption.
    + exact (Hd _ _ _ _ _ Hi Hk Hui Huk).
  - destruct (sniffer_step_frontier_untouched _ _ _ _ _ _ H Ew) as (_ & _ & Hw & _).
    unfold distinct_urls. rewrite Hw. exact Hd.
Qed.

Lemma run_distinct_urls (ls : list label) (s s' : state) :
  provenance_inv ROOT html_rewriter s -> distinct_urls s ->
  run ROOT html_rewriter css_rewriter s ls = Some s' -> distinct_urls s'.
Proof.
  revert s; induction ls as [|l ls IH]; intros s Hp Hd; cbn [run].
  - intros [= <-]. exact Hd.
  - destruct (step ROOT html_rewriter css_rewriter s l) as [s1|] eqn:E; [|discriminate].
    apply IH.
    + eapply step_provenance; eassumption.
    + destruct Hp as (Hpc & _). eapply step_distinct_urls; eassumption.
Qed.

(** X19: at no moment of a run are two workers working on the same URL,
    whatever the order in which they are resumed. *)
Theorem workers_hold_distinct_urls (r : sitemap_fetch) (ls : list label)
    (s : state) (i j : nat) (pc pc' : wpc) (u : str) :
  run ROOT html_rewriter css_rewriter (boot ROOT r) ls = Some s ->
  workers s !! i = Some pc -> workers s !! j = Some pc' ->
  pc_url pc = Some u -> pc_url pc' = Some u ->
  i = j.
Proof.
  intros Hrun. apply (run_distinct_urls ls (boot ROOT r)); [apply boot_provenance | | exact Hrun].
  intros a b pa pb x Ha Hb Hx _.
  assert (Hw : workers (boot ROOT r) = replicate THREADS WInit)
    by (destruct r as [|[] [xml|]]; reflexivity).
  rewrite Hw in Ha. apply lookup_replicate in Ha as [-> _]. discriminate Hx.
Qed.

End Workers.

Lemma workers_hold_distinct_urls_witness : 0%nat = 0%nat.
Proof.
  apply (workers_hold_distinct_urls site_example example_html example_css FetchThrows
           run_asset_fails
           state_asset_fails 0 0 (WRendering site_example) (WRendering site_example)
           site_example); [vm_compute; reflexivity | reflexivity ..].
Defined.

(** ** Style sheets *)

Lemma starts_with_app_le (p s t : str) :
  (length p <= length s)%nat -> starts_with p (s ++ t) = starts_with p s.
Proof.
  revert s; induction p as [|x p IH]; intros s H; [reflexivity|].
  destruct s as [|y s]; [cbn in H; lia|]. cbn [app starts_with].
  rewrite IH; [reflexivity | cbn in H; lia].
Qed.

Lemma ends_with_tail (x : str) (c : N) (s : str) :
  (length x <= length s)%nat -> ends_with x (c :: s) = ends_with x s.
Proof.
  intros H. unfold ends_with. cbn [rev]. apply starts_with_app_le.
  rewrite !length_rev. exact H.
Qed.

Lemma starts_with_length (p s : str) :
  starts_with p s = true -> (length p <= length s)%nat.
Proof.
  revert s; induction p as [|x p IH]; intros [|y s] H; cbn in *;
    try lia; try discriminate.
  apply andb_true_iff in H as [_ H]. apply IH in H. lia.
Qed.

(** X20: a style sheet requested with a query string ([site.css?ver=123])
    is mapped to a path that still ends in [.css], so the sniffer rewrites
    it as a style sheet. *)
Theorem css_with_query_is_a_style_sheet (ROOT p q : str) :
  includes [qmark] p = false ->
  ends_with (js ".css") p = true ->
  no_line_terminator q = true ->
  ends_with (js ".css") (cleanURL ROOT (ROOT ++ p ++ qmark :: q)) = true.
Proof.
  intros Hp Hcss Hq. rewrite cleanURL_in_scope. cbv zeta.
  rewrite (strip_query_path _ _ Hp Hq).
  assert (Hlen : (4 <= length p)%nat).
  { unfold ends_with in Hcss. apply starts_with_length in Hcss.
    rewrite !length_rev in Hcss. exact Hcss. }
  assert (Hslash : ends_with [slash] p = false).
  { unfold ends_with in *. destruct (rev p) as [|c t]; [discriminate Hcss|].
    change (rev (js ".css")) with [115; 115; 99; 46] in Hcss.
    cbn [rev app starts_with] in Hcss |- *.
    apply andb_true_iff in Hcss as [Hc _]. apply N.eqb_eq in Hc as <-. reflexivity. }
  destruct p as [|c p]; [discriminate Hcss|].
  destruct p as [|d p]; [cbn in Hlen; lia|].
  cbn [str_eqb orb]. rewrite andb_false_r, Hslash. cbn [strip_leading_slash].
  destruct (N.eqb_spec c slash) as [->|_]; [|exact Hcss].
  rewrite ends_with_tail in Hcss; [exact Hcss|].
  change (length (js ".css")) with 4%nat.
  destruct p as [|e [|f [|g p]]]; cbn [length] in Hlen |- *; try lia.
  exfalso. unfold ends_with in Hcss.
  change (rev (js ".css")) with [115; 115; 99; 46] in Hcss.
  cbn [rev app starts_with] in Hcss.
  change (46 =? slash) with false in Hcss.
  rewrite !andb_false_r in Hcss. discriminate Hcss.
Qed.

Lemma css_with_query_is_a_style_sheet_witness :
  ends_with (js ".css")
    (cleanURL site_example (site_example ++ js "/css/site.css" ++ qmark :: js "ver=123"))
  = true.
Proof. apply css_with_query_is_a_style_sheet; reflexivity. Defined.

(** X21: the [rewriteCSS] of the variants with a hard-coded origin leaves
    a style sheet unchanged when the origin followed by a separator does
    not occur in it. *)
Theorem V8_rewriteCSS_nothing_to_rewrite (css : str) :
  includes V8.ROOT_slash css = false ->
  V8.rewriteCSS css = css.
Proof.
  intros H. unfold V8.rewriteCSS.
  assert (Ho : occurs (escaped V8.ROOT_slash) css = false)
    by (rewrite occurs_escaped; exact H).
  unfold escaped in *. rewrite !map_app.
  rewrite (replace_all_absent (map Lit (jsq "url('") ++ map Lit V8.ROOT_slash))
    by (apply occurs_after_prefix, Ho).
  rewrite (replace_all_absent (map Lit (js "url(") ++ map Lit V8.ROOT_slash))
    by (apply occurs_after_prefix, Ho).
  apply replace_all_absent, Ho.
Qed.

Lemma V8_rewriteCSS_nothing_to_rewrite_witness :
  V8.rewriteCSS (jsq "a{background:url('https://cdn.example/a.png')}")
  = jsq "a{background:url('https://cdn.example/a.png')}".
Proof. apply V8_rewriteCSS_nothing_to_rewrite. reflexivity. Defined.
